(** * TicketAI backend: classification client, routing engine, queue worker

    A shallow embedding of the three core modules of the backend,

      - [src/ai/classifier.js]   (module [Classifier]),
      - the routing engine [ai/router] (module [Router]),
      - [src/utils/queue-worker.js] (module [Worker]),

    together with the fragment of the JavaScript run-time semantics they
    rely on (module [JS]): truthiness, [===], [Array.prototype.includes],
    the relational operators with their coercions, [Math.min]/[Math.max],
    [Array.prototype.sort], exceptions.

    Modelling conventions.
      - Numbers are exact rationals extended with [NaN] and the two
        infinities. The quotients the router computes (the load ratio of an
        agent) are rounded as IEEE doubles (module [Double]); elsewhere
        rounding and overflow are not modelled.
      - The router source has four callbacks whose arrow is missing
        ([skill =] and [tm =] at the end of a line, lines 168, 207, 220 and
        270): the argument is then an assignment whose right-hand side reads
        an undeclared identifier, and evaluating it throws a ReferenceError.
        The model has the callbacks as they are written.
      - Strings are sequences of 8-bit characters; [toLowerCase] acts on
        the letters A-Z.
      - Exceptions are explicit: a computation that may throw returns a
        [result].
      - Rows read from the database (agents with their team memberships,
        teams, rules, tickets) are records with the column types of
        [schema.sql]; JSON documents (rule conditions, the classification
        service's answer) are untyped [value]s.
      - A property read sees the own properties of an object. Members
        inherited from [Object.prototype] are modelled where the router
        indexes its category tables by the ticket's category, and not for
        [ticket[key]]: a rule key that names an inherited member reads as
        a missing column. *)

From Stdlib Require Import List String Ascii Bool ZArith QArith Qminmax Qabs.
From Stdlib Require Import Lia Lqa Permutation Sorted DecimalString.
From Stdlib Require Import SpecFloat.
Import ListNotations.

Set Implicit Arguments.
Set Warnings "-register-all".

(* ===================================================================== *)
(** ** The JavaScript fragment                                            *)
(* ===================================================================== *)

Module JS.

(** An exception value: the two fields of an [Error] the worker inspects. *)
Record error := mkError { message : option string; code : option string }.

Definition TypeError (msg : string) : error := mkError (Some msg) None.

Definition ReferenceError (msg : string) : error := mkError (Some msg) None.

(** Outcome of a computation that may throw. *)
Inductive result (A : Type) : Type :=
| Ok (a : A)
| Throw (e : error).

Arguments Ok {A} a.
Arguments Throw {A} e.

Definition bind {A B} (r : result A) (k : A -> result B) : result B :=
  match r with
  | Ok a => k a
  | Throw e => Throw e
  end.

(** [try { body } catch (e) { handler e }] *)
Definition try_catch {A} (body : result A) (handler : error -> result A)
  : result A :=
  match body with
  | Ok a => Ok a
  | Throw e => handler e
  end.

Declare Scope js_scope.
Delimit Scope js_scope with js.
Notation "x <- c ;; k" := (bind c (fun x => k))
  (at level 61, c at next level, right associativity) : js_scope.

(** *** Numbers *)

Inductive number : Type :=
| NaN
| NegInf
| Fin (q : Q)
| PosInf.

Definition num_of_Z (z : Z) : number := Fin (inject_Z z).

(** [a < b] on numbers; [None] is the "undefined" answer of the abstract
    relational comparison (an operand is NaN). *)
Definition num_lt (a b : number) : option bool :=
  match a, b with
  | NaN, _ | _, NaN => None
  | NegInf, NegInf => Some false
  | NegInf, _ => Some true
  | _, NegInf => Some false
  | PosInf, _ => Some false
  | _, PosInf => Some true
  | Fin p, Fin q => Some (negb (Qle_bool q p))
  end.

(** [Math.min(a, b)] and [Math.max(a, b)] on numbers. *)
Definition Math_min (a b : number) : number :=
  match num_lt a b with
  | None => NaN
  | Some true => a
  | Some false => b
  end.

Definition Math_max (a b : number) : number :=
  match num_lt a b with
  | None => NaN
  | Some true => b
  | Some false => a
  end.

Definition num_add (a b : number) : number :=
  match a, b with
  | NaN, _ | _, NaN => NaN
  | PosInf, NegInf | NegInf, PosInf => NaN
  | PosInf, _ | _, PosInf => PosInf
  | NegInf, _ | _, NegInf => NegInf
  | Fin p, Fin q => Fin (p + q)
  end.

Definition num_neg (a : number) : number :=
  match a with
  | NaN => NaN
  | NegInf => PosInf
  | PosInf => NegInf
  | Fin p => Fin (- p)
  end.

Definition num_sub (a b : number) : number := num_add a (num_neg b).

(** [a / b]; the sign of a zero divisor is not tracked: [x / 0] is [NaN]
    for [x = 0] and an infinity of the sign of [x] otherwise. *)
Definition num_div (a b : number) : number :=
  match a, b with
  | NaN, _ | _, NaN => NaN
  | (PosInf | NegInf), (PosInf | NegInf) => NaN
  | PosInf, Fin q => if Qle_bool 0 q then PosInf else NegInf
  | NegInf, Fin q => if Qle_bool 0 q then NegInf else PosInf
  | Fin _, (PosInf | NegInf) => Fin 0
  | Fin p, Fin q =>
      if Qeq_bool q 0
      then (if Qeq_bool p 0 then NaN
            else if Qle_bool 0 p then PosInf else NegInf)
      else Fin (p / q)
  end.

(** [lo <= a <= hi] for a finite [a]. *)
Definition num_between (lo hi : Q) (a : number) : Prop :=
  match a with
  | Fin q => lo <= q /\ q <= hi
  | _ => False
  end.

(** *** Strings *)

Open Scope string_scope.

Definition lower_char (c : ascii) : ascii :=
  let n := nat_of_ascii c in
  if (65 <=? n)%nat && (n <=? 90)%nat then ascii_of_nat (n + 32) else c.

(** [s.toLowerCase()] *)
Fixpoint toLowerCase (s : string) : string :=
  match s with
  | EmptyString => EmptyString
  | String c s' => String (lower_char c) (toLowerCase s')
  end.

(** [s.includes(sub)] on strings. *)
Fixpoint str_includes (s sub : string) : bool :=
  String.prefix sub s ||
  match s with
  | EmptyString => false
  | String _ s' => str_includes s' sub
  end.

(** [a < b] on strings: lexicographic order of the code units. *)
Fixpoint str_lt (a b : string) : bool :=
  match a, b with
  | _, EmptyString => false
  | EmptyString, String _ _ => true
  | String x a', String y b' =>
      let m := nat_of_ascii x in
      let n := nat_of_ascii y in
      if (m <? n)%nat then true
      else if (n <? m)%nat then false
      else str_lt a' b'
  end.

(** [arr.includes(s)] on an array of strings. *)
Definition arr_includes (arr : list string) (s : string) : bool :=
  existsb (String.eqb s) arr.

(** Truthiness of a nullable string. *)
Definition truthy_str (o : option string) : bool :=
  match o with
  | Some s => negb (String.eqb s "")
  | None => false
  end.

(** *** Values

    A JSON document after [JSON.parse], or a field of a database row. *)

Inductive value : Type :=
| VUndef
| VNull
| VBool (b : bool)
| VNum (n : number)
| VStr (s : string)
| VArr (items : list value)
| VObj (props : list (string * value)).

Definition truthy (v : value) : bool :=
  match v with
  | VUndef | VNull => false
  | VBool b => b
  | VNum NaN => false
  | VNum (Fin q) => negb (Qeq_bool q 0)
  | VNum _ => true
  | VStr s => negb (String.eqb s "")
  | VArr _ | VObj _ => true
  end.

(** [a || b] *)
Definition js_or (a b : value) : value := if truthy a then a else b.

Fixpoint lookup (k : string) (props : list (string * value)) : option value :=
  match props with
  | [] => None
  | (k', v) :: rest => if String.eqb k k' then Some v else lookup k rest
  end.

(** [o.k] for a property name [k] that is neither an index nor [length]:
    an own property of an object, [undefined] on other values, and a
    TypeError on [undefined] and [null]. *)
Definition get (o : value) (k : string) : result value :=
  match o with
  | VUndef | VNull => Throw (TypeError "Cannot read properties of undefined or null")
  | VObj props =>
      Ok (match lookup k props with Some v => v | None => VUndef end)
  | _ => Ok VUndef
  end.

(** [o?.k] *)
Definition get_opt (o : value) (k : string) : value :=
  match o with
  | VObj props => match lookup k props with Some v => v | None => VUndef end
  | _ => VUndef
  end.

Definition num_eqb (a b : number) : bool :=
  match a, b with
  | NegInf, NegInf | PosInf, PosInf => true
  | Fin p, Fin q => Qeq_bool p q
  | _, _ => false
  end.

(** [a === b]. Two arrays or objects are equal only when they are the same
    allocation; the values compared in the modelled code always come from
    two different documents, hence [false]. *)
Definition strict_eq (a b : value) : bool :=
  match a, b with
  | VUndef, VUndef | VNull, VNull => true
  | VBool x, VBool y => Bool.eqb x y
  | VNum x, VNum y => num_eqb x y
  | VStr x, VStr y => String.eqb x y
  | _, _ => false
  end.

(** SameValueZero, the equality of [Array.prototype.includes]. *)
Definition same_value_zero (a b : value) : bool :=
  match a, b with
  | VNum NaN, VNum NaN => true
  | _, _ => strict_eq a b
  end.

(** [arr.includes(x)] *)
Definition includes (arr : list value) (x : value) : bool :=
  existsb (fun y => same_value_zero y x) arr.

Definition nat_to_string (n : nat) : string :=
  NilZero.string_of_uint (Nat.to_uint n).

Fixpoint indexed {A} (i : nat) (l : list A) : list (string * A) :=
  match l with
  | [] => []
  | x :: l' => (nat_to_string i, x) :: indexed (S i) l'
  end.

(** [Object.entries(v)] for a value that is neither undefined nor null. *)
Definition object_entries (v : value) : list (string * value) :=
  match v with
  | VObj props => props
  | VArr items => indexed 0 items
  | VStr s =>
      indexed 0 (map (fun c => VStr (String c EmptyString))
                     (list_ascii_of_string s))
  | _ => []
  end.

(** *** Conversions between strings and numbers *)

Definition is_ws (c : ascii) : bool :=
  let n := nat_of_ascii c in
  ((9 <=? n)%nat && (n <=? 13)%nat) || (n =? 32)%nat.

Fixpoint trim_start (l : list ascii) : list ascii :=
  match l with
  | c :: l' => if is_ws c then trim_start l' else l
  | [] => []
  end.

Definition trim (l : list ascii) : list ascii :=
  rev (trim_start (rev (trim_start l))).

(** Value of a digit in the given radix (2, 8, 10 or 16). *)
Definition digit_of (radix : Z) (c : ascii) : option Z :=
  let n := Z.of_nat (nat_of_ascii c) in
  let d :=
    if (48 <=? n)%Z && (n <=? 57)%Z then Some (n - 48)%Z
    else if (97 <=? n)%Z && (n <=? 102)%Z then Some (n - 87)%Z
    else if (65 <=? n)%Z && (n <=? 70)%Z then Some (n - 55)%Z
    else None in
  match d with
  | Some v => if (v <? radix)%Z then Some v else None
  | None => None
  end.

(** A possibly empty run of digits, most significant first. *)
Fixpoint digits_value (radix acc : Z) (l : list ascii) : option Z :=
  match l with
  | [] => Some acc
  | c :: l' =>
      match digit_of radix c with
      | Some d => digits_value radix (acc * radix + d)%Z l'
      | None => None
      end
  end.

Definition nonempty_digits (radix : Z) (l : list ascii) : option Z :=
  match l with
  | [] => None
  | _ => digits_value radix 0 l
  end.

(** Split at the first character satisfying [p]. *)
Fixpoint split_at (p : ascii -> bool) (l : list ascii)
  : list ascii * option (list ascii) :=
  match l with
  | [] => ([], None)
  | c :: l' =>
      if p c then ([], Some l')
      else let '(a, b) := split_at p l' in (c :: a, b)
  end.

Definition is_char (cs : string) (c : ascii) : bool :=
  existsb (Ascii.eqb c) (list_ascii_of_string cs).

Definition pow10 (e : Z) : Q :=
  if (0 <=? e)%Z then inject_Z (10 ^ e) else / inject_Z (10 ^ (- e)).

(** [digits [. digits]] or [. digits], at least one digit. *)
Definition parse_mantissa (l : list ascii) : option Q :=
  let '(ip, fp) := split_at (is_char ".") l in
  let fp := match fp with Some f => f | None => [] end in
  match ip, fp with
  | [], [] => None
  | _, _ =>
      match digits_value 10 0 ip, digits_value 10 0 fp with
      | Some i, Some f =>
          Some (inject_Z i
                + inject_Z f * pow10 (- Z.of_nat (List.length fp)))
      | _, _ => None
      end
  end.

Definition strip_sign (l : list ascii) : bool * list ascii :=
  match l with
  | c :: l' =>
      if Ascii.eqb c "-" then (true, l')
      else if Ascii.eqb c "+" then (false, l')
      else (false, l)
  | [] => (false, [])
  end.

Definition parse_exponent (l : list ascii) : option Z :=
  let '(neg, ds) := strip_sign l in
  match nonempty_digits 10 ds with
  | Some e => Some (if neg then (- e)%Z else e)
  | None => None
  end.

(** An unsigned StrDecimalLiteral other than [Infinity]. *)
Definition parse_decimal (l : list ascii) : option Q :=
  let '(m, e) := split_at (is_char "eE") l in
  match parse_mantissa m, e with
  | Some q, None => Some q
  | Some q, Some el =>
      match parse_exponent el with
      | Some x => Some (q * pow10 x)
      | None => None
      end
  | None, _ => None
  end.

Definition of_option_Z (o : option Z) : number :=
  match o with
  | Some z => num_of_Z z
  | None => NaN
  end.

(** StringToNumber: the numeric value of a string, NaN when the trimmed
    string is not a numeric literal. *)
Definition string_to_number (s : string) : number :=
  let l := trim (list_ascii_of_string s) in
  match l with
  | [] => Fin 0
  | "0"%char :: x :: ds =>
      if is_char "xX" x then of_option_Z (nonempty_digits 16 ds)
      else if is_char "oO" x then of_option_Z (nonempty_digits 8 ds)
      else if is_char "bB" x then of_option_Z (nonempty_digits 2 ds)
      else match parse_decimal l with Some q => Fin q | None => NaN end
  | _ =>
      let '(neg, u) := strip_sign l in
      if String.eqb (string_of_list_ascii u) "Infinity"
      then (if neg then NegInf else PosInf)
      else match parse_decimal u with
           | Some q => Fin (if neg then - q else q)
           | None => NaN
           end
  end.

Definition Z_to_string (z : Z) : string :=
  NilZero.string_of_int (Z.to_int z).

Fixpoint frac_digits (fuel : nat) (r d : Z) : string :=
  match fuel with
  | O => ""
  | S fuel' =>
      if (r =? 0)%Z then ""
      else String (ascii_of_nat (48 + Z.to_nat (r * 10 / d)))
                  (frac_digits fuel' ((r * 10) mod d) d)
  end.

(** Number::toString in positional notation: the integer part and up to 17
    fractional digits (the exponent notation JavaScript switches to for
    very large and very small magnitudes is not modelled). *)
Definition number_to_string (n : number) : string :=
  match n with
  | NaN => "NaN"
  | PosInf => "Infinity"
  | NegInf => "-Infinity"
  | Fin q =>
      let a := Z.abs (Qnum q) in
      let d := Zpos (Qden q) in
      let r := (a mod d)%Z in
      (if (Qnum q <? 0)%Z then "-" else "")
      ++ Z_to_string (a / d)
      ++ (if (r =? 0)%Z then "" else "." ++ frac_digits 17 r d)
  end.

(** *** Coercions *)

Definition has_key (k : string) (props : list (string * value)) : bool :=
  match lookup k props with Some _ => true | None => false end.

(** ToString. An array is joined with commas ([undefined] and [null]
    elements print as the empty string). A plain object prints as
    [[object Object]]; an object that carries an own property named
    [toString] (which, coming from JSON, is not callable) has no primitive
    value: TypeError. *)
Fixpoint to_string (v : value) : result string :=
  match v with
  | VUndef => Ok "undefined"
  | VNull => Ok "null"
  | VBool b => Ok (if b then "true" else "false")
  | VNum n => Ok (number_to_string n)
  | VStr s => Ok s
  | VArr items =>
      (fix join (first : bool) (l : list value) : result string :=
         match l with
         | [] => Ok ""
         | x :: l' =>
             bind (match x with
                   | VUndef | VNull => Ok ""
                   | _ => to_string x
                   end)
                  (fun sx =>
             bind (join false l')
                  (fun sl =>
             Ok ((if first then "" else ",") ++ sx ++ sl)))
         end) true items
  | VObj props =>
      if has_key "toString" props
      then Throw (TypeError "Cannot convert object to primitive value")
      else Ok "[object Object]"
  end.

(** ToPrimitive *)
Definition to_primitive (v : value) : result value :=
  match v with
  | VArr _ | VObj _ => bind (to_string v) (fun s => Ok (VStr s))
  | _ => Ok v
  end.

(** ToNumber *)
Definition to_number (v : value) : result number :=
  bind (to_primitive v) (fun p =>
  Ok (match p with
      | VUndef => NaN
      | VNull => Fin 0
      | VBool b => if b then Fin 1 else Fin 0
      | VNum n => n
      | VStr s => string_to_number s
      | _ => NaN
      end)).

(** The abstract relational comparison [x < y]: [None] is "undefined". *)
Definition compare_lt (x y : value) : result (option bool) :=
  bind (to_primitive x) (fun px =>
  bind (to_primitive y) (fun py =>
  match px, py with
  | VStr a, VStr b => Ok (Some (str_lt a b))
  | _, _ =>
      bind (to_number px) (fun nx =>
      bind (to_number py) (fun ny =>
      Ok (num_lt nx ny)))
  end)).

Definition is_true (o : option bool) : bool :=
  match o with Some true => true | _ => false end.

Definition is_false (o : option bool) : bool :=
  match o with Some false => true | _ => false end.

(** [a < b], [a > b], [a <= b], [a >= b] *)
Definition js_lt (a b : value) : result bool :=
  bind (compare_lt a b) (fun r => Ok (is_true r)).
Definition js_gt (a b : value) : result bool :=
  bind (compare_lt b a) (fun r => Ok (is_true r)).
Definition js_le (a b : value) : result bool :=
  bind (compare_lt b a) (fun r => Ok (is_false r)).
Definition js_ge (a b : value) : result bool :=
  bind (compare_lt a b) (fun r => Ok (is_false r)).

(** *** Array.prototype.sort

    The sort is stable; with a consistent comparator its result is the
    stable insertion sort below. An element [x] stays in front of [y]
    unless [cmp x y > 0]; a comparator result of NaN counts as zero. *)

Definition cmp_nonpos (n : number) : bool :=
  match n with
  | NaN | NegInf => true
  | Fin q => Qle_bool q 0
  | PosInf => false
  end.

Section Sort.
Variable A : Type.
Variable cmp : A -> A -> number.

Fixpoint sort_insert (x : A) (l : list A) : list A :=
  match l with
  | [] => [x]
  | y :: l' =>
      if cmp_nonpos (cmp x y) then x :: y :: l'
      else y :: sort_insert x l'
  end.

Fixpoint sort (l : list A) : list A :=
  match l with
  | [] => []
  | x :: l' => sort_insert x (sort l')
  end.

(** [x] may stand before [y]: the comparator does not ask for a swap. *)
Definition precedes (x y : A) : bool := cmp_nonpos (cmp x y).

(** [x] and [y] tie. *)
Definition ties (x y : A) : bool := precedes x y && precedes y x.

Definition sorted : list A -> Prop :=
  StronglySorted (fun x y => precedes x y = true).
End Sort.

(** The comparator [(a, b) => key(a) - key(b)]. *)
Definition by_key {A} (key : A -> Q) (a b : A) : number :=
  Fin (key a - key b).

End JS.

(* ===================================================================== *)
(** ** Doubles                                                            *)
(* ===================================================================== *)

(** The double-precision numbers of IEEE 754 (53 bits of precision,
    round to nearest, ties to even), on the definitions of [SpecFloat]. *)
Module Double.

Definition t : Type := spec_float.

Definition prec : Z := 53.
Definition emax : Z := 1024.

(** The double nearest to an integer. *)
Definition of_Z (z : Z) : t := binary_normalize prec emax z 0 false.

Definition add (x y : t) : t := SFadd prec emax x y.
Definition sub (x y : t) : t := SFsub prec emax x y.
Definition mul (x y : t) : t := SFmul prec emax x y.
Definition div (x y : t) : t := SFdiv prec emax x y.

(** The rational a finite double stands for (0 for the two zeros). The
    infinities and NaN, which stand for no rational, are mapped to 0: the
    quotient of two integers below 2^1024 in magnitude by a divisor that
    is not 0 is never one of them. *)
Definition to_Q (x : t) : Q :=
  match x with
  | S754_finite s m e =>
      let v := inject_Z (Zpos m) * Qpower 2 e in
      if s then - v else v
  | _ => 0
  end.

End Double.

(* ===================================================================== *)
(** ** The routing engine ([ai/router])                                   *)
(* ===================================================================== *)

Module Router.
Import JS.
Open Scope string_scope.

(** *** Rows *)

(** A ticket row. The columns the router reads by name are typed as in
    [schema.sql]; [fields] holds the remaining columns of the row. *)
Module Ticket.
Record t := {
  subject : string;
  body : string;
  priority : option string;
  sentiment : option string;
  sentiment_score : option Q;
  category : option string;
  ai_processed : option bool;
  ai_confidence : option Q;
  fields : list (string * value)
}.

Definition of_string (o : option string) : value :=
  match o with Some s => VStr s | None => VNull end.
Definition of_number (o : option Q) : value :=
  match o with Some q => VNum (Fin q) | None => VNull end.
Definition of_bool (o : option bool) : value :=
  match o with Some b => VBool b | None => VNull end.

(** [ticket[key]] *)
Definition field (ticket : t) (key : string) : value :=
  if String.eqb key "subject" then VStr (subject ticket)
  else if String.eqb key "body" then VStr (body ticket)
  else if String.eqb key "priority" then of_string (priority ticket)
  else if String.eqb key "sentiment" then of_string (sentiment ticket)
  else if String.eqb key "sentiment_score"
       then of_number (sentiment_score ticket)
  else if String.eqb key "category" then of_string (category ticket)
  else if String.eqb key "ai_processed" then of_bool (ai_processed ticket)
  else if String.eqb key "ai_confidence"
       then of_number (ai_confidence ticket)
  else match lookup key (fields ticket) with
       | Some v => v
       | None => VUndef
       end.
End Ticket.

Module TeamMember.
Record t := { team_id : string; is_team_lead : bool }.
End TeamMember.

Module Agent.
Record t := {
  id : string;
  first_name : option string;
  role : option string;
  skills : option (list string);
  current_ticket_count : option Z;
  max_tickets : option Z;
  team_members : option (list TeamMember.t);
  is_active : bool
}.
End Agent.

Module Team.
Record t := {
  id : string;
  name : string;
  skills : option (list string)
}.
End Team.

Module Rule.
Record t := {
  name : string;
  priority : option Z;
  conditions : value;
  assign_to_team : option string;
  assign_to_user : option string;
  set_priority : option string;
  add_tags : option (list string);
  is_active : bool
}.
End Rule.

(** The actions of a matched rule, as [applyRoutingRules] returns them. *)
Module RuleMatch.
Record t := {
  ruleName : string;
  assignToTeam : option string;
  assignToUser : option string;
  setPriority : option string;
  addTags : option (list string)
}.
End RuleMatch.

(** The routing decision. *)
Module Routing.
Record t := {
  assignToUser : option string;
  assignToTeam : option string;
  setPriority : option string;
  addTags : list string;
  reason : string;
  confidence : number
}.

Definition with_user (u : option string) (r : t) : t :=
  {| assignToUser := u; assignToTeam := assignToTeam r;
     setPriority := setPriority r; addTags := addTags r;
     reason := reason r; confidence := confidence r |}.
Definition with_team (g : option string) (r : t) : t :=
  {| assignToUser := assignToUser r; assignToTeam := g;
     setPriority := setPriority r; addTags := addTags r;
     reason := reason r; confidence := confidence r |}.
Definition with_priority (p : option string) (r : t) : t :=
  {| assignToUser := assignToUser r; assignToTeam := assignToTeam r;
     setPriority := p; addTags := addTags r;
     reason := reason r; confidence := confidence r |}.
Definition with_tags (tags : list string) (r : t) : t :=
  {| assignToUser := assignToUser r; assignToTeam := assignToTeam r;
     setPriority := setPriority r; addTags := tags;
     reason := reason r; confidence := confidence r |}.
Definition with_reason (s : string) (r : t) : t :=
  {| assignToUser := assignToUser r; assignToTeam := assignToTeam r;
     setPriority := setPriority r; addTags := addTags r;
     reason := s; confidence := confidence r |}.
Definition with_confidence (c : number) (r : t) : t :=
  {| assignToUser := assignToUser r; assignToTeam := assignToTeam r;
     setPriority := setPriority r; addTags := addTags r;
     reason := reason r; confidence := c |}.
End Routing.

(** *** Rule matching *)

(** [x || 0] and [x || 10] on a nullable integer column. *)
Definition or_default (d : Z) (o : option Z) : Z :=
  match o with
  | Some z => if (z =? 0)%Z then d else z
  | None => d
  end.

(** One operator of a comparison object:
    [value.$op !== undefined && !(ticketValue <op> value.$op)] *)
Definition violates (test : value -> value -> result bool)
           (ticketValue value : value) (op : string) : result bool :=
  bind (get value op) (fun bound =>
  if strict_eq bound VUndef then Ok false
  else bind (test ticketValue bound) (fun holds => Ok (negb holds))).

(** The object branch of [matchesRule]: [{ $gt, $lt, $gte, $lte, $ne }].
    The branch is entered by every [value] with [typeof value === 'object'],
    [null] included, on which the first property read throws. *)
Definition matches_operators (ticketValue value : value) : result bool :=
  bind (violates js_gt ticketValue value "$gt") (fun v1 =>
  if v1 then Ok false else
  bind (violates js_lt ticketValue value "$lt") (fun v2 =>
  if v2 then Ok false else
  bind (violates js_ge ticketValue value "$gte") (fun v3 =>
  if v3 then Ok false else
  bind (violates js_le ticketValue value "$lte") (fun v4 =>
  if v4 then Ok false else
  bind (get value "$ne") (fun ne =>
  if negb (strict_eq ne VUndef) && strict_eq ticketValue ne then Ok false
  else Ok true))))).

Definition matches_condition (ticket : Ticket.t) (key : string)
           (value : value) : result bool :=
  let ticketValue := Ticket.field ticket key in
  match value with
  | VArr items => Ok (includes items ticketValue)
  | VNull | VObj _ => matches_operators ticketValue value
  | _ => Ok (strict_eq ticketValue value)
  end.

Fixpoint matches_entries (ticket : Ticket.t)
         (entries : list (string * value)) : result bool :=
  match entries with
  | [] => Ok true
  | (key, value) :: rest =>
      bind (matches_condition ticket key value) (fun ok =>
      if ok then matches_entries ticket rest else Ok false)
  end.

Definition matchesRule (ticket : Ticket.t) (conditions : value)
  : result bool :=
  if negb (truthy conditions) then Ok false
  else matches_entries ticket (object_entries conditions).

Definition rule_actions (rule : Rule.t) : RuleMatch.t :=
  {| RuleMatch.ruleName := Rule.name rule;
     RuleMatch.assignToTeam := Rule.assign_to_team rule;
     RuleMatch.assignToUser := Rule.assign_to_user rule;
     RuleMatch.setPriority := Rule.set_priority rule;
     RuleMatch.addTags := Rule.add_tags rule |}.

(** The loop of [applyRoutingRules]: the first rule that matches. *)
Fixpoint first_match (ticket : Ticket.t) (rules : list Rule.t)
  : result (option RuleMatch.t) :=
  match rules with
  | [] => Ok None
  | rule :: rest =>
      bind (matchesRule ticket (Rule.conditions rule)) (fun m =>
      if m then Ok (Some (rule_actions rule)) else first_match ticket rest)
  end.

(** [(b.priority || 0) - (a.priority || 0)] *)
Definition by_priority_desc (a b : Rule.t) : number :=
  num_sub (num_of_Z (or_default 0 (Rule.priority b)))
          (num_of_Z (or_default 0 (Rule.priority a))).

Definition applyRoutingRules (ticket : Ticket.t) (rules : list Rule.t)
  : result (option RuleMatch.t) :=
  match rules with
  | [] => Ok None
  | _ => first_match ticket (sort by_priority_desc rules)
  end.

(** *** Category tables *)

(** The names every object literal inherits from [Object.prototype]. *)
Definition object_prototype_keys : list string :=
  [ "constructor"; "__proto__"; "hasOwnProperty"; "isPrototypeOf";
    "propertyIsEnumerable"; "toLocaleString"; "toString"; "valueOf";
    "__defineGetter__"; "__defineSetter__";
    "__lookupGetter__"; "__lookupSetter__" ].

Fixpoint assoc (k : string) (table : list (string * list string))
  : option (list string) :=
  match table with
  | [] => None
  | (k', v) :: rest => if String.eqb k k' then Some v else assoc k rest
  end.

(** [table[key] || fallback]: [Some skills] when the result is an array of
    skills; [None] when [key] names a member inherited from
    [Object.prototype], a truthy value that is not an array. *)
Definition table_or (table : list (string * list string))
           (key : string) (fallback : list string) : option (list string) :=
  match assoc key table with
  | Some skills => Some skills
  | None =>
      if arr_includes object_prototype_keys key then None
      else Some fallback
  end.

Definition categoryToSkills : list (string * list string) :=
  [ ("billing", ["billing"; "payments"; "finance"]);
    ("technical", ["technical"; "engineering"; "support"]);
    ("feature_request", ["product"; "feedback"]);
    ("bug", ["technical"; "engineering"; "qa"]);
    ("account", ["account"; "customer_success"]);
    ("general", ["support"; "general"]) ].

Definition categorySkills : list (string * list string) :=
  [ ("billing", ["billing"; "finance"]);
    ("technical", ["technical"; "engineering"]);
    ("feature_request", ["product"]);
    ("bug", ["technical"; "qa"]);
    ("account", ["account"; "customer_success"]) ].

(** [arr.find(p)] for a predicate that may throw. *)
Fixpoint find_m {A} (p : A -> result bool) (l : list A)
  : result (option A) :=
  match l with
  | [] => Ok None
  | x :: l' =>
      bind (p x) (fun b => if b then Ok (Some x) else find_m p l')
  end.

(** [arr.map(f)] for a function that may throw. *)
Fixpoint map_m {A B} (f : A -> result B) (l : list A) : result (list B) :=
  match l with
  | [] => Ok []
  | x :: l' =>
      bind (f x) (fun y => bind (map_m f l') (fun ys => Ok (y :: ys)))
  end.

(** [arr.filter(p)] for a predicate that may throw. *)
Fixpoint filter_m {A} (p : A -> result bool) (l : list A)
  : result (list A) :=
  match l with
  | [] => Ok []
  | x :: l' =>
      bind (p x) (fun b =>
      bind (filter_m p l') (fun xs => Ok (if b then x :: xs else xs)))
  end.

(** The callback of [teams.find]. Its last statement is
    [return relevantSkills.some(skill = team.skills.includes(skill))]: the
    arrow of the inner callback is missing, so the argument of [some] is
    an assignment, and evaluating its right-hand side reads the undeclared
    [skill]. That throws before [some] is called, whatever
    [relevantSkills] is. *)
Definition team_has_skill (relevantSkills : option (list string))
           (team : Team.t) : result bool :=
  match Team.skills team with
  | None | Some [] => Ok false
  | Some (_ :: _) => Throw (ReferenceError "skill is not defined")
  end.

Definition findTeamByCategory (category : string) (teams : list Team.t)
  : result (option Team.t) :=
  match teams with
  | [] => Ok None
  | first :: _ =>
      let relevantSkills := table_or categoryToSkills category ["support"] in
      bind (find_m (team_has_skill relevantSkills) teams) (fun found =>
      Ok (Some (match found with Some team => team | None => first end)))
  end.

(** *** Agents *)

Definition in_team (teamId : string) (agent : Agent.t) : bool :=
  match Agent.team_members agent with
  | None => false
  | Some tms =>
      existsb (fun tm => String.eqb (TeamMember.team_id tm) teamId) tms
  end.

(** [(a.current_ticket_count || 0) / (a.max_tickets || 10)], a division
    of doubles. *)
Definition load_ratio (a : Agent.t) : Double.t :=
  Double.div (Double.of_Z (or_default 0 (Agent.current_ticket_count a)))
             (Double.of_Z (or_default 10 (Agent.max_tickets a))).

(** The load ratio as the number it is. Two doubles subtract to a
    negative, zero or positive double as the first is below, equal to or
    above the second, and a sort reads only that sign: the comparators of
    the router are modelled by the exact difference of these numbers. *)
Definition load (a : Agent.t) : Q := Double.to_Q (load_ratio a).

(** The callback of [teamAgents.map]. Two of its statements have a
    callback without its arrow:
    [relevantSkills.filter(skill = agent.skills.includes(skill))], reached
    when the agent has skills and the ticket a category, reads the
    undeclared [skill]; and
    [agent.team_members?.some(tm = tm.team_id === teamId && tm.is_team_lead)],
    reached when the agent has memberships, reads the undeclared [tm]. The
    score is returned only for an agent that reaches neither. *)
Definition score_agent (teamId : string) (ticket : Ticket.t)
           (agent : Agent.t) : result (Agent.t * Q) :=
  bind (match Agent.skills agent, Ticket.category ticket with
        | Some _, Some category =>
            if String.eqb category "" then Ok tt
            else
              let relevantSkills := table_or categorySkills category [] in
              Throw (ReferenceError "skill is not defined")
        | _, _ => Ok tt
        end) (fun _ =>
  let availability := Double.sub (Double.of_Z 1) (load_ratio agent) in
  let score :=
    Double.add (Double.of_Z 0) (Double.mul availability (Double.of_Z 20)) in
  match Agent.team_members agent with
  | Some _ => Throw (ReferenceError "tm is not defined")
  | None => Ok (agent, Double.to_Q score)
  end).

Definition findBestAgentInTeam (teamId : string) (agents : list Agent.t)
           (ticket : Ticket.t) : result (option Agent.t) :=
  match agents with
  | [] => Ok None
  | _ =>
      let teamAgents := filter (in_team teamId) agents in
      match teamAgents with
      | [] => Ok None
      | _ =>
          bind (map_m (score_agent teamId ticket) teamAgents)
               (fun scoredAgents =>
          let sorted :=
            sort (fun a b => Fin (snd b - snd a)) scoredAgents in
          Ok (match sorted with
              | [] => None
              | (agent, _) :: _ => Some agent
              end))
      end
  end.

Definition escalationKeywords : list string :=
  [ "cancel"; "refund"; "lawsuit"; "lawyer"; "legal";
    "manager"; "supervisor"; "escalate"; "complaint";
    "terrible"; "awful"; "unacceptable"; "fraud" ].

(** [column === s] on a nullable string column. *)
Definition is_str (column : option string) (s : string) : bool :=
  match column with
  | Some x => String.eqb x s
  | None => false
  end.

(** [column < bound] and [column > bound] on a nullable numeric column
    ([null] converts to 0). *)
Definition column_lt (column : option Q) (bound : Q) : bool :=
  match column with
  | Some x => negb (Qle_bool bound x)
  | None => negb (Qle_bool bound 0)
  end.

Definition column_gt (column : option Q) (bound : Q) : bool :=
  match column with
  | Some x => negb (Qle_bool x bound)
  | None => negb (Qle_bool 0 bound)
  end.

Definition shouldEscalate (ticket : Ticket.t) : bool :=
  if is_str (Ticket.priority ticket) "urgent" then true
  else if is_str (Ticket.sentiment ticket) "very_negative" then true
  else if column_lt (Ticket.sentiment_score ticket) (- (1 # 2)) then true
  else
    let text :=
      toLowerCase (Ticket.subject ticket ++ " " ++ Ticket.body ticket) in
    existsb (fun keyword => str_includes text keyword) escalationKeywords.

(** [findLeastBusyAgent]: the head of the agents sorted by load. *)
Definition findLeastBusyAgent (agents : list Agent.t) : option Agent.t :=
  match agents with
  | [] => None
  | _ =>
      let sorted := sort (fun a b => Fin (load a - load b)) agents in
      hd_error sorted
  end.

(** The callback of the filter of [findSeniorAgent] for team leads. Its
    last statement is
    [return agent.team_members.some(tm = tm.is_team_lead && ...)]: the
    arrow is missing, and evaluating the argument reads the undeclared
    [tm]. An agent without memberships is rejected before that. *)
Definition is_lead (teamId : option string) (agent : Agent.t)
  : result bool :=
  match Agent.team_members agent with
  | None => Ok false
  | Some _ => Throw (ReferenceError "tm is not defined")
  end.

Definition is_manager (a : Agent.t) : bool := is_str (Agent.role a) "manager".

Definition findSeniorAgent (agents : list Agent.t) (teamId : option string)
  : result (option Agent.t) :=
  match agents with
  | [] => Ok None
  | _ =>
      bind (filter_m (is_lead teamId) agents) (fun leads =>
      match leads with
      | _ :: _ => Ok (findLeastBusyAgent leads)
      | [] =>
          let managers := filter is_manager agents in
          match managers with
          | _ :: _ => Ok (findLeastBusyAgent managers)
          | [] => Ok None
          end
      end)
  end.

(** *** Confidence *)

Definition calculateRoutingConfidence (routing : Routing.t)
           (ticket : Ticket.t) : number :=
  let confidence := Fin 0.5 in
  let confidence :=
    if truthy_str (Routing.assignToTeam routing)
       && truthy_str (Routing.assignToUser routing)
    then num_add confidence (Fin 0.3) else confidence in
  let confidence :=
    if truthy (Ticket.of_bool (Ticket.ai_processed ticket))
    then num_add confidence (Fin 0.1) else confidence in
  let confidence :=
    if column_gt (Ticket.ai_confidence ticket) 0.8
    then num_add confidence (Fin 0.1) else confidence in
  Math_min (Fin 1) confidence.

(** *** The routing steps *)

Definition initial : Routing.t :=
  {| Routing.assignToUser := None; Routing.assignToTeam := None;
     Routing.setPriority := None; Routing.addTags := [];
     Routing.reason := ""; Routing.confidence := Fin 0 |}.

(** Step 1: the actions of the matched rule, if any. *)
Definition apply_rule_match (ruleMatch : option RuleMatch.t)
           (routing : Routing.t) : Routing.t :=
  match ruleMatch with
  | Some m =>
      {| Routing.assignToTeam := RuleMatch.assignToTeam m;
         Routing.assignToUser := RuleMatch.assignToUser m;
         Routing.setPriority := RuleMatch.setPriority m;
         Routing.addTags :=
           match RuleMatch.addTags m with Some tags => tags | None => [] end;
         Routing.reason := "Matched routing rule: " ++ RuleMatch.ruleName m;
         Routing.confidence := Fin 0.9 |}
  | None => routing
  end.

(** Step 2: no team yet and the ticket has a category. *)
Definition route_by_category (ticket : Ticket.t) (teams : list Team.t)
           (routing : Routing.t) : result Routing.t :=
  match Ticket.category ticket with
  | Some category =>
      if negb (truthy_str (Routing.assignToTeam routing))
         && truthy_str (Some category)
      then
        bind (findTeamByCategory category teams) (fun teamByCategory =>
        match teamByCategory with
        | Some team =>
            let routing := Routing.with_team (Some (Team.id team)) routing in
            Ok (Routing.with_reason
                  (if String.eqb (Routing.reason routing) ""
                   then "Routed to " ++ Team.name team
                        ++ " team based on category"
                   else Routing.reason routing) routing)
        | None => Ok routing
        end)
      else Ok routing
  | None => Ok routing
  end.

Definition print_nullable (o : option string) : string :=
  match o with Some s => s | None => "null" end.

(** Step 3: a team but no user. *)
Definition assign_best_agent (ticket : Ticket.t) (agents : list Agent.t)
           (routing : Routing.t) : result Routing.t :=
  match Routing.assignToTeam routing with
  | Some teamId =>
      if truthy_str (Some teamId)
         && negb (truthy_str (Routing.assignToUser routing))
      then
        bind (findBestAgentInTeam teamId agents ticket) (fun bestAgent =>
        match bestAgent with
        | Some agent =>
            let routing := Routing.with_user (Some (Agent.id agent)) routing in
            Ok (Routing.with_reason
                  (Routing.reason routing ++ " -> Assigned to "
                   ++ print_nullable (Agent.first_name agent)) routing)
        | None => Ok routing
        end)
      else Ok routing
  | None => Ok routing
  end.

(** Step 4: escalation. ([push] extends the array in place; when a rule
    matched, that array is the rule's own [add_tags]. Within one
    invocation, which is what [route] models, the decision is the same.) *)
Definition handle_escalation (ticket : Ticket.t) (agents : list Agent.t)
           (routing : Routing.t) : result Routing.t :=
  if shouldEscalate ticket then
    let routing := Routing.with_priority (Some "urgent") routing in
    let routing :=
      Routing.with_tags (Routing.addTags routing ++ ["escalated"]) routing in
    bind (findSeniorAgent agents (Routing.assignToTeam routing))
         (fun senior =>
    match senior with
    | Some seniorAgent =>
        let routing :=
          Routing.with_user (Some (Agent.id seniorAgent)) routing in
        Ok (Routing.with_reason
              (Routing.reason routing ++ " (Escalated to senior agent)")
              routing)
    | None => Ok routing
    end)
  else Ok routing.

(** Step 5: load balancing when there is neither a user nor a team. *)
Definition load_balance (agents : list Agent.t) (routing : Routing.t)
  : Routing.t :=
  if negb (truthy_str (Routing.assignToUser routing))
     && negb (truthy_str (Routing.assignToTeam routing))
  then
    match findLeastBusyAgent agents with
    | Some leastBusyAgent =>
        Routing.with_reason "Assigned via load balancing"
          (Routing.with_user (Some (Agent.id leastBusyAgent)) routing)
    | None => routing
    end
  else routing.

(** The decision as it stands after steps 1 to 3. *)
Definition route_steps_1_to_3 (ticket : Ticket.t) (agents : list Agent.t)
           (teams : list Team.t) (rules : list Rule.t) : result Routing.t :=
  bind (applyRoutingRules ticket rules) (fun ruleMatch =>
  let routing := apply_rule_match ruleMatch initial in
  bind (route_by_category ticket teams routing) (fun routing =>
  assign_best_agent ticket agents routing)).

(** Steps 4 and 5 and the final confidence. *)
Definition route_steps_4_to_6 (ticket : Ticket.t) (agents : list Agent.t)
           (routing : Routing.t) : result Routing.t :=
  bind (handle_escalation ticket agents routing) (fun routing =>
  let routing := load_balance agents routing in
  Ok (Routing.with_confidence (calculateRoutingConfidence routing ticket)
                              routing)).

Definition route (ticket : Ticket.t) (agents : list Agent.t)
           (teams : list Team.t) (rules : list Rule.t) : result Routing.t :=
  bind (route_steps_1_to_3 ticket agents teams rules) (fun routing =>
  route_steps_4_to_6 ticket agents routing).

End Router.

(* ===================================================================== *)
(** ** The classification client ([src/ai/classifier.js])                 *)
(* ===================================================================== *)

Module Classifier.
Import JS.
Open Scope string_scope.

Definition CATEGORIES : list string :=
  [ "billing"; "technical"; "feature_request"; "bug"; "account"; "general" ].

Definition PRIORITIES : list string := [ "low"; "medium"; "high"; "urgent" ].

Definition SENTIMENTS : list string :=
  [ "positive"; "neutral"; "negative"; "very_negative" ].

(** The module-level constants read from the process environment. *)
Record config := { MODEL : string; provider : string }.

Module Sentiment.
Record t := { label : string; score : number }.
End Sentiment.

Module Confidence.
Record t := { category : number; priority : number; sentiment : number }.
End Confidence.

Record classification := {
  category : string;
  priority : string;
  sentiment : Sentiment.t;
  confidence : Confidence.t;
  overallConfidence : number;
  reasoning : value;
  modelVersion : string;
  modelProvider : string;
  processingTimeMs : Z
}.

(** What the first statement of the [try] block yields: either it throws
    (the request is rejected, the answer has no
    [choices[0].message.content], or [JSON.parse] rejects the content), or
    [JSON.parse] returns a document. The prompt sent is not modelled. *)
Inductive upstream : Type :=
| Fails (e : error)
| Parsed (result : value).

(** [DOMAIN.includes(v) ? v : fallback] *)
Definition in_domain_or (domain : list string) (v : value)
           (fallback : string) : string :=
  match v with
  | VStr s => if arr_includes domain s then s else fallback
  | _ => fallback
  end.

(** [Math.max(lo, Math.min(1, v || dflt))] *)
Definition clamp (lo : Q) (v : value) (dflt : Q) : result number :=
  bind (to_number (js_or v (VNum (Fin dflt)))) (fun n =>
  Ok (Math_max (Fin lo) (Math_min (Fin 1) n))).

(** The [try] block after [JSON.parse]; [processingTime] is
    [Date.now() - startTime]. *)
Definition normalize (cfg : config) (processingTime : Z) (result : value)
  : JS.result classification :=
  bind (get result "category") (fun category =>
  bind (get result "priority") (fun priority =>
  bind (get result "sentiment") (fun sentiment =>
  bind (clamp (-1) (get_opt sentiment "score") 0) (fun score =>
  bind (get result "confidence") (fun confidence =>
  bind (clamp 0 (get_opt confidence "category") 0.5) (fun c_category =>
  bind (clamp 0 (get_opt confidence "priority") 0.5) (fun c_priority =>
  bind (clamp 0 (get_opt confidence "sentiment") 0.5) (fun c_sentiment =>
  bind (get result "reasoning") (fun reasoning =>
  Ok {| category := in_domain_or CATEGORIES category "general";
        priority := in_domain_or PRIORITIES priority "medium";
        sentiment :=
          {| Sentiment.label :=
               in_domain_or SENTIMENTS (get_opt sentiment "label") "neutral";
             Sentiment.score := score |};
        confidence :=
          {| Confidence.category := c_category;
             Confidence.priority := c_priority;
             Confidence.sentiment := c_sentiment |};
        overallConfidence :=
          num_div (num_add (num_add c_category c_priority) c_sentiment)
                  (Fin 3);
        reasoning := js_or reasoning (VStr "");
        modelVersion := MODEL cfg;
        modelProvider := provider cfg;
        processingTimeMs := processingTime |}))))))))).

(** The value the [catch] block returns. *)
Definition fallback (cfg : config) (processingTime : Z) : classification :=
  {| category := "general";
     priority := "medium";
     sentiment := {| Sentiment.label := "neutral"; Sentiment.score := Fin 0 |};
     confidence :=
       {| Confidence.category := Fin 0;
          Confidence.priority := Fin 0;
          Confidence.sentiment := Fin 0 |};
     overallConfidence := Fin 0;
     reasoning := VStr "Classification failed";
     modelVersion := MODEL cfg;
     modelProvider := provider cfg;
     processingTimeMs := processingTime |}.

(** [classify]. [now k] is the value of the [k]-th call of [Date.now()]
    made by the invocation; [now 0] is [startTime]. *)
Definition classify (cfg : config) (now : nat -> Z) (service : upstream)
  : result classification :=
  let startTime := now 0%nat in
  match service with
  | Fails e =>
      try_catch (Throw e)
        (fun _ => Ok (fallback cfg (now 1%nat - startTime)))
  | Parsed result =>
      try_catch (normalize cfg (now 1%nat - startTime) result)
        (fun _ => Ok (fallback cfg (now 2%nat - startTime)))
  end.

End Classifier.

(* ===================================================================== *)
(** ** The queue worker ([src/utils/queue-worker.js])                     *)
(* ===================================================================== *)

Module Worker.
Import JS.
Open Scope string_scope.

Record job := {
  ticketId : string;
  tenantId : string;
  subject : string;
  body : string
}.

Inductive log_entry : Type :=
| Info (msg : string) (ticket : string)
| Failed (msg : string) (ticket : string) (error_message : option string).

(** The worker's counter and the part of the outside world it writes to.
    Queues have their most recently pushed element first ([lpush]). *)
Record state := {
  processingCount : Z;
  retry_queue : list job;
  routing_queue : list (string * string);
  classifications : list (string * Classifier.classification);
  tickets : list (string * Classifier.classification);
  log : list log_entry
}.

(** How the awaited calls of one [processJob] behave: the classification
    service and the clock, and for each write whether the awaited call
    throws ([Some e]) or the write is carried out ([None]). A store call
    that resolves with an error object and writes nothing is neither of
    the two: statements about the writes name the outcome they are about. *)
Record environment := {
  cfg : Classifier.config;
  now : nat -> Z;
  service : Classifier.upstream;
  insert_classification : option error;
  update_ticket : option error;
  ENABLE_AUTO_ROUTING : bool;
  push_routing : option error;
  push_retry : option error
}.

(** State and exceptions. *)
Definition M (A : Type) : Type := state -> result A * state.

Definition ret {A} (a : A) : M A := fun st => (Ok a, st).

Definition bindM {A B} (m : M A) (k : A -> M B) : M B :=
  fun st =>
    match m st with
    | (Ok a, st') => k a st'
    | (Throw e, st') => (Throw e, st')
    end.

Declare Scope worker_scope.
Delimit Scope worker_scope with worker.
Notation "x <- m ;; k" := (bindM m (fun x => k))
  (at level 61, m at next level, right associativity) : worker_scope.
Notation "m ;; k" := (bindM m (fun _ => k))
  (at level 61, right associativity) : worker_scope.

Definition lift {A} (r : result A) : M A := fun st => (r, st).

Definition modify (f : state -> state) : M unit := fun st => (Ok tt, f st).

(** An awaited write: rejected, or performed. *)
Definition await (outcome : option error) (effect : state -> state)
  : M unit :=
  match outcome with
  | Some e => lift (Throw e)
  | None => modify effect
  end.

(** [try { body } catch (error) { handler error } finally { finalizer }] *)
Definition try_catch_finally {A} (body : M A) (handler : error -> M A)
           (finalizer : state -> state) : M A :=
  fun st =>
    let '(r, st1) := body st in
    let '(r', st2) :=
      match r with
      | Ok a => (Ok a, st1)
      | Throw e => handler e st1
      end in
    (r', finalizer st2).

Definition set_count (n : Z) (st : state) : state :=
  {| processingCount := n; retry_queue := retry_queue st;
     routing_queue := routing_queue st;
     classifications := classifications st; tickets := tickets st;
     log := log st |}.

Definition add_log (e : log_entry) (st : state) : state :=
  {| processingCount := processingCount st; retry_queue := retry_queue st;
     routing_queue := routing_queue st;
     classifications := classifications st; tickets := tickets st;
     log := e :: log st |}.

Definition lpush_retry (j : job) (st : state) : state :=
  {| processingCount := processingCount st;
     retry_queue := j :: retry_queue st;
     routing_queue := routing_queue st;
     classifications := classifications st; tickets := tickets st;
     log := log st |}.

Definition lpush_routing (r : string * string) (st : state) : state :=
  {| processingCount := processingCount st; retry_queue := retry_queue st;
     routing_queue := r :: routing_queue st;
     classifications := classifications st; tickets := tickets st;
     log := log st |}.

Definition insert_row (r : string * Classifier.classification) (st : state)
  : state :=
  {| processingCount := processingCount st; retry_queue := retry_queue st;
     routing_queue := routing_queue st;
     classifications := r :: classifications st; tickets := tickets st;
     log := log st |}.

Definition update_row (r : string * Classifier.classification) (st : state)
  : state :=
  {| processingCount := processingCount st; retry_queue := retry_queue st;
     routing_queue := routing_queue st;
     classifications := classifications st; tickets := r :: tickets st;
     log := log st |}.

Definition retryableCodes : list string :=
  [ "ECONNRESET"; "ETIMEDOUT"; "ECONNREFUSED"; "RATE_LIMITED" ].

(** [error.message?.includes(code) || error.code === code] for some code. *)
Definition isRetryableError (e : error) : bool :=
  existsb (fun c =>
             match message e with
             | Some m => str_includes m c
             | None => false
             end
             || match code e with
                | Some x => String.eqb x c
                | None => false
                end) retryableCodes.

Open Scope worker_scope.

(** The [try] block of [processJob]. *)
Definition process_body (env : environment) (j : job) : M unit :=
  modify (add_log (Info "Processing classification job" (ticketId j))) ;;
  classification <-
    lift (Classifier.classify (cfg env) (now env) (service env)) ;;
  await (insert_classification env)
        (insert_row (ticketId j, classification)) ;;
  await (update_ticket env) (update_row (ticketId j, classification)) ;;
  (if ENABLE_AUTO_ROUTING env
   then await (push_routing env) (lpush_routing (ticketId j, tenantId j))
   else ret tt) ;;
  modify (add_log (Info "Classification completed" (ticketId j))).

(** The [catch] block of [processJob]. *)
Definition process_failure (env : environment) (j : job) (e : error)
  : M unit :=
  modify (add_log (Failed "Classification job failed" (ticketId j)
                          (message e))) ;;
  if isRetryableError e
  then await (push_retry env) (lpush_retry j)
  else ret tt.

Definition processJob (env : environment) (j : job) : M unit :=
  modify (fun st => set_count (processingCount st + 1) st) ;;
  try_catch_finally
    (process_body env j)
    (process_failure env j)
    (fun st => set_count (processingCount st - 1) st).

Close Scope worker_scope.

End Worker.

(* ===================================================================== *)
(** ** Vocabulary of the specification                                    *)
(* ===================================================================== *)

Module Spec.
Import JS Router.
Open Scope string_scope.

(** The priority a rule is ordered by: [rule.priority || 0]. *)
Definition effective_priority (rule : Rule.t) : Z :=
  or_default 0 (Rule.priority rule).

Definition has_priority (p : Z) (rule : Rule.t) : bool :=
  (effective_priority rule =? p)%Z.

(** The escalation lexicon of the specification. *)
Definition escalation_lexicon : list string :=
  [ "cancel"; "refund"; "lawsuit"; "lawyer"; "legal"; "manager";
    "supervisor"; "escalate"; "complaint"; "terrible"; "awful";
    "unacceptable"; "fraud" ].

(** The ticket carries one of the four escalation signals. *)
Definition escalation_signal (ticket : Ticket.t) : Prop :=
  Ticket.priority ticket = Some "urgent"
  \/ Ticket.sentiment ticket = Some "very_negative"
  \/ (exists score,
        Ticket.sentiment_score ticket = Some score /\ score < - (1 # 2))
  \/ (exists keyword,
        In keyword escalation_lexicon
        /\ (str_includes (toLowerCase (Ticket.subject ticket)) keyword = true
            \/ str_includes (toLowerCase (Ticket.body ticket)) keyword = true)).

(** A team that has a skill. *)
Definition skilled (team : Team.t) : bool :=
  match Team.skills team with
  | Some (_ :: _) => true
  | _ => false
  end.

(** An agent that comes with an array of memberships, empty or not. *)
Definition has_memberships (agent : Agent.t) : bool :=
  match Agent.team_members agent with
  | Some _ => true
  | None => false
  end.

(** The agent with its active flag set to [flag agent]. *)
Definition with_active (flag : Agent.t -> bool) (agent : Agent.t)
  : Agent.t :=
  {| Agent.id := Agent.id agent;
     Agent.first_name := Agent.first_name agent;
     Agent.role := Agent.role agent;
     Agent.skills := Agent.skills agent;
     Agent.current_ticket_count := Agent.current_ticket_count agent;
     Agent.max_tickets := Agent.max_tickets agent;
     Agent.team_members := Agent.team_members agent;
     Agent.is_active := flag agent |}.

(** Every rule's conditions can be evaluated on the ticket. *)
Definition rules_evaluate (ticket : Ticket.t) (rules : list Rule.t) : Prop :=
  Forall (fun rule =>
            exists b, matchesRule ticket (Rule.conditions rule) = Ok b) rules.



Definition indicator (b : bool) : Q := if b then 1 else 0.

(** min(1, 0.5 + 0.3 [team and user] + 0.1 [processed] + 0.1 [confident]) *)
Definition confidence_formula (assigned processed confident : bool) : Q :=
  Qmin 1 (0.5 + 0.3 * indicator assigned + 0.1 * indicator processed
          + 0.1 * indicator confident).

(** A nullable flag that is set. *)
Definition flag (o : option bool) : bool :=
  match o with Some true => true | _ => false end.

(** A nullable number that exceeds [bound]. *)
Definition exceeds (o : option Q) (bound : Q) : bool :=
  match o with
  | Some x => if Qlt_le_dec bound x then true else false
  | None => false
  end.

(** A JSON value that is a number, a boolean, or missing. *)
Definition numeric_or_absent (v : value) : Prop :=
  match v with
  | VStr _ | VArr _ | VObj _ => False
  | _ => True
  end.

(** The arithmetic mean of a list of numbers, summed left to right. *)
Definition arithmetic_mean (l : list number) : number :=
  num_div (fold_left num_add l (Fin 0)) (num_of_Z (Z.of_nat (List.length l))).

(** [a] and [b] are one number up to [eps]: two finite numbers no further
    apart than [eps], or the same infinity. [NaN] is within no tolerance
    of any number, itself included. *)
Definition within_tolerance (eps : Q) (a b : number) : Prop :=
  match a, b with
  | NegInf, NegInf | PosInf, PosInf => True
  | Fin p, Fin q => Qabs (p - q) <= eps
  | _, _ => False
  end.

(** The reading of the clock in the [catch] block of [classify], when the
    [try] block throws. *)
Definition caught_at (cfg : Classifier.config) (now : nat -> Z)
           (service : Classifier.upstream) : option Z :=
  match service with
  | Classifier.Fails _ => Some (now 1%nat)
  | Classifier.Parsed result =>
      match Classifier.normalize cfg (now 1%nat - now 0%nat) result with
      | Throw _ => Some (now 2%nat)
      | Ok _ => None
      end
  end.

(** A step of the worker that leaves the retry queue and the counter of
    jobs in progress as they are. *)
Definition keeps_retry_queue {A} (m : Worker.M A) : Prop :=
  forall st r st',
    m st = (r, st') ->
    Worker.retry_queue st' = Worker.retry_queue st
    /\ Worker.processingCount st' = Worker.processingCount st.

End Spec.

(* ===================================================================== *)
(** ** Sample data                                                        *)
(* ===================================================================== *)

Module Sample.
Import JS Router.
Open Scope string_scope.

Definition ticket_with (body : string) : Ticket.t :=
  {| Ticket.subject := "invoice question";
     Ticket.body := body;
     Ticket.priority := Some "medium";
     Ticket.sentiment := Some "neutral";
     Ticket.sentiment_score := None;
     Ticket.category := Some "billing";
     Ticket.ai_processed := None;
     Ticket.ai_confidence := None;
     Ticket.fields := [] |}.

(** Scenario A of the specification. *)
Definition billing_ticket : Ticket.t := ticket_with "why was I charged twice".

(** Scenario B of the specification. *)
Definition fraud_ticket : Ticket.t :=
  ticket_with "why was I charged twice. this is fraud, get me a lawyer".

Definition T1 : Team.t :=
  {| Team.id := "T1"; Team.name := "Billing"; Team.skills := Some ["billing"] |}.

Definition member (team : string) (lead : bool) : TeamMember.t :=
  {| TeamMember.team_id := team; TeamMember.is_team_lead := lead |}.

Definition agent (id : string) (role : string) (load : Z)
           (memberships : list TeamMember.t) (active : bool) : Agent.t :=
  {| Agent.id := id; Agent.first_name := Some id; Agent.role := Some role;
     Agent.skills := Some ["billing"];
     Agent.current_ticket_count := Some load; Agent.max_tickets := Some 10%Z;
     Agent.team_members := Some memberships; Agent.is_active := active |}.

Definition A1 : Agent.t := agent "A1" "agent" 2 [member "T1" false] true.
Definition lead : Agent.t := agent "L1" "agent" 9 [member "T1" true] true.
Definition busy_lead : Agent.t := agent "L2" "agent" 10 [member "T1" true] true.
Definition manager : Agent.t := agent "M1" "manager" 5 [] true.
Definition inactive : Agent.t := agent "A9" "agent" 0 [member "T1" false] false.

Definition rule (name : string) (priority : Z) (conditions : value)
           (team : option string) : Rule.t :=
  {| Rule.name := name; Rule.priority := Some priority;
     Rule.conditions := conditions;
     Rule.assign_to_team := team; Rule.assign_to_user := None;
     Rule.set_priority := None; Rule.add_tags := None;
     Rule.is_active := true |}.

(** Two rules of equal priority that both match every ticket. *)
Definition catch_all_1 : Rule.t := rule "first" 1 (VObj []) (Some "T1").
Definition catch_all_2 : Rule.t := rule "second" 1 (VObj []) (Some "T2").

Definition billing_rule : Rule.t :=
  rule "billing" 5 (VObj [("category", VArr [VStr "billing"; VStr "account"])])
       None.

(** A rule that names a team and a user. *)
Definition vip_rule : Rule.t :=
  {| Rule.name := "vip"; Rule.priority := Some 9%Z;
     Rule.conditions := VObj [("category", VStr "billing")];
     Rule.assign_to_team := Some "T1"; Rule.assign_to_user := Some "A1";
     Rule.set_priority := Some "high"; Rule.add_tags := Some ["vip"];
     Rule.is_active := true |}.

(** A team without skills. *)
Definition T0 : Team.t :=
  {| Team.id := "T0"; Team.name := "Front desk"; Team.skills := None |}.

(** Agents that come without their memberships. *)
Definition solo (id : string) (role : string) (load capacity : Z)
           (active : bool) : Agent.t :=
  {| Agent.id := id; Agent.first_name := Some id; Agent.role := Some role;
     Agent.skills := Some ["billing"];
     Agent.current_ticket_count := Some load;
     Agent.max_tickets := Some capacity;
     Agent.team_members := None; Agent.is_active := active |}.

Definition freelancer : Agent.t := solo "F1" "agent" 3 10 true.
Definition duty_manager : Agent.t := solo "M2" "manager" 5 10 true.

(** Two agents whose load ratios, 1000000000/1000000001 and
    999999999/1000000000, are different rationals and the same double. *)
Definition nearly_full_1 : Agent.t :=
  solo "N1" "agent" 1000000000 1000000001 true.
Definition nearly_full_2 : Agent.t :=
  solo "N2" "agent" 999999999 1000000000 true.

Definition decision_of (r : result Routing.t) : Routing.t :=
  match r with Ok d => d | Throw _ => initial end.

Definition cfg : Classifier.config :=
  {| Classifier.MODEL := "gpt-4"; Classifier.provider := "openai" |}.

(** A clock that advances by 7 ms between two readings. *)
Definition clock (k : nat) : Z := 1000 + 7 * Z.of_nat k.

Definition connection_reset : error := mkError (Some "read ECONNRESET") None.

Definition connection_refused : error :=
  mkError (Some "connect ECONNREFUSED 127.0.0.1:6379") (Some "ECONNREFUSED").

(** The service answers [{"confidence": {"category": "high"}}]. *)
Definition worded_confidence : Classifier.upstream :=
  Classifier.Parsed
    (VObj [("confidence", VObj [("category", VStr "high")])]).

(** A well-formed answer. *)
Definition answer : Classifier.upstream :=
  Classifier.Parsed
    (VObj [("category", VStr "billing"); ("priority", VStr "high");
           ("sentiment", VObj [("label", VStr "negative");
                               ("score", VNum (Fin (-0.4)))]);
           ("confidence", VObj [("category", VNum (Fin 0.9));
                                ("priority", VNum (Fin 0.6));
                                ("sentiment", VNum (Fin 1.5))]);
           ("reasoning", VStr "charged twice")]).

Definition job : Worker.job :=
  {| Worker.ticketId := "ticket-1"; Worker.tenantId := "tenant-1";
     Worker.subject := "invoice question";
     Worker.body := "why was I charged twice" |}.

Definition idle : Worker.state :=
  {| Worker.processingCount := 0; Worker.retry_queue := [];
     Worker.routing_queue := []; Worker.classifications := [];
     Worker.tickets := []; Worker.log := [] |}.

(** The store accepts the classification, then the queue server goes
    away: the push of the routing job is refused, and so is every later
    push. *)
Definition queue_down : Worker.environment :=
  {| Worker.cfg := cfg; Worker.now := clock; Worker.service := answer;
     Worker.insert_classification := None;
     Worker.update_ticket := None;
     Worker.ENABLE_AUTO_ROUTING := true;
     Worker.push_routing := Some connection_refused;
     Worker.push_retry := Some connection_refused |}.

(** The update of the ticket times out; the queues work. *)
Definition store_timeout : Worker.environment :=
  {| Worker.cfg := cfg; Worker.now := clock; Worker.service := answer;
     Worker.insert_classification := None;
     Worker.update_ticket := Some (mkError (Some "ETIMEDOUT") None);
     Worker.ENABLE_AUTO_ROUTING := true;
     Worker.push_routing := None;
     Worker.push_retry := None |}.

(** The classification service is rate limited; the store and the
    queues work. *)
Definition rate_limited : error :=
  mkError (Some "429 RATE_LIMITED") (Some "RATE_LIMITED").

Definition service_down : Worker.environment :=
  {| Worker.cfg := cfg; Worker.now := clock;
     Worker.service := Classifier.Fails rate_limited;
     Worker.insert_classification := None;
     Worker.update_ticket := None;
     Worker.ENABLE_AUTO_ROUTING := true;
     Worker.push_routing := None;
     Worker.push_retry := None |}.

End Sample.

(* ===================================================================== *)
(** ** Further vocabulary                                                 *)
(* ===================================================================== *)

Module Vocabulary.
Import JS Router.
Open Scope string_scope.

(** The actions of the matched rule, if a rule matched. *)
Definition rule_team (m : option RuleMatch.t) : option string :=
  match m with Some x => RuleMatch.assignToTeam x | None => None end.

Definition rule_user (m : option RuleMatch.t) : option string :=
  match m with Some x => RuleMatch.assignToUser x | None => None end.

Definition rule_priority (m : option RuleMatch.t) : option string :=
  match m with Some x => RuleMatch.setPriority x | None => None end.

Definition rule_tags (m : option RuleMatch.t) : list string :=
  match m with
  | Some x => match RuleMatch.addTags x with Some tags => tags | None => [] end
  | None => []
  end.

(** A word without a space. *)
Definition spaceless (k : string) : bool :=
  forallb (fun c => negb (Ascii.eqb c " ")) (list_ascii_of_string k).

(** A nullable numeric column as the relational operators read it. *)
Definition column_value (column : option Q) : Q :=
  match column with Some x => x | None => 0 end.

(** A condition with one comparison operator and a numeric bound. *)
Definition compares (op : string) (bound : Q) : value :=
  VObj [(op, VNum (Fin bound))].

End Vocabulary.

(* ===================================================================== *)
(** ** The assign endpoint ([src/routes/tickets.js])                      *)
(* ===================================================================== *)

Module Endpoint.
Import JS Router.
Open Scope string_scope.

(** A membership as the query embeds it,
    [team_members(team_id, teams(id, name, skills))]: there is no
    [is_team_lead], which the router reads as [undefined]. *)
Definition selected_member (tm : TeamMember.t) : TeamMember.t :=
  {| TeamMember.team_id := TeamMember.team_id tm;
     TeamMember.is_team_lead := false |}.

(** A row of [users] as the query returns it: the columns of the table,
    which has no [current_ticket_count], and the embedded memberships,
    an array also for a user without any. *)
Definition selected_agent (u : Agent.t) : Agent.t :=
  {| Agent.id := Agent.id u;
     Agent.first_name := Agent.first_name u;
     Agent.role := Agent.role u;
     Agent.skills := Agent.skills u;
     Agent.current_ticket_count := None;
     Agent.max_tickets := Agent.max_tickets u;
     Agent.team_members :=
       Some (match Agent.team_members u with
             | Some memberships => map selected_member memberships
             | None => []
             end);
     Agent.is_active := Agent.is_active u |}.

(** [.eq('is_active', true).eq('role', 'agent')] *)
Definition available (u : Agent.t) : bool :=
  Agent.is_active u && is_str (Agent.role u) "agent".

(** The agents the endpoint passes to [route], of the users of the
    tenant. *)
Definition fetch_agents (users : list Agent.t) : list Agent.t :=
  map selected_agent (filter available users).

(** The rules the endpoint passes to [route]: [.eq('is_active', true)]. *)
Definition fetch_rules (rules : list Rule.t) : list Rule.t :=
  filter Rule.is_active rules.

(** The columns of the ticket the endpoint writes. *)
Record stored := {
  assigned_to : option string;
  assigned_team : option string;
  priority : option string;
  tags : option (list string)
}.

(** [new Set(iterable)]: the elements in the order of their first
    occurrence. *)
Definition set_add (seen : list string) (x : string) : list string :=
  if arr_includes seen x then seen else (seen ++ [x])%list.

Definition set_of (l : list string) : list string := fold_left set_add l [].

(** [[...new Set([...(ticket.tags || []), ...routing.addTags])]], when
    [routing.addTags] is not empty; [None] when the tags are not
    written. *)
Definition merged_tags (current : option (list string))
           (addTags : list string) : option (list string) :=
  match addTags with
  | [] => None
  | _ =>
      let currentTags := match current with Some t => t | None => [] end in
      Some (set_of (currentTags ++ addTags)%list)
  end.

(** The two updates of the ticket: a column is written only with a truthy
    value of the decision. *)
Definition apply_routing (routing : Routing.t) (row : stored) : stored :=
  {| assigned_to :=
       if truthy_str (Routing.assignToUser routing)
       then Routing.assignToUser routing else assigned_to row;
     assigned_team :=
       if truthy_str (Routing.assignToTeam routing)
       then Routing.assignToTeam routing else assigned_team row;
     priority :=
       if truthy_str (Routing.setPriority routing)
       then Routing.setPriority routing else priority row;
     tags :=
       match merged_tags (tags row) (Routing.addTags routing) with
       | Some t => Some t
       | None => tags row
       end |}.

(** The endpoint, from the rows read to the row written. *)
Definition assign (ticket : Ticket.t) (row : stored)
           (users : list Agent.t) (teams : list Team.t)
           (rules : list Rule.t) : result stored :=
  bind (route ticket (fetch_agents users) teams (fetch_rules rules))
       (fun routing => Ok (apply_routing routing row)).

End Endpoint.

(* ===================================================================== *)
(** ** Batches and languages ([src/ai/classifier.js])                     *)
(* ===================================================================== *)

Module Calls.
Import JS Classifier.
Open Scope string_scope.

(** A ticket of a batch, with what its [classify] meets: the readings of
    the clock and the outcome of the service. *)
Record request := {
  id : value;
  clock : nat -> Z;
  outcome : upstream
}.

(** [{ ticketId: ticket.id, ...result }] *)
Record entry := {
  ticketId : value;
  result : classification
}.

(** The loop of [classifyBatch]; [results] is the array built so far. *)
Fixpoint classify_each (cfg : config) (tickets : list request)
         (results : list entry) : JS.result (list entry) :=
  match tickets with
  | [] => Ok results
  | ticket :: rest =>
      bind (classify cfg (clock ticket) (outcome ticket)) (fun r =>
      classify_each cfg rest
        (results ++ [{| ticketId := id ticket; result := r |}]))
  end.

Definition classifyBatch (cfg : config) (tickets : list request)
  : JS.result (list entry) :=
  classify_each cfg tickets [].

(** What the completion request of [detectLanguage] yields: it throws
    (the request is rejected, or the answer has no [choices[0].message]),
    or the answer has a content, a string or [null]. *)
Inductive reply : Type :=
| Unavailable (e : error)
| Content (content : option string).

(** [s.trim()] *)
Definition trim_string (s : string) : string :=
  string_of_list_ascii (trim (list_ascii_of_string s)).

(** [detectLanguage]; [service] answers the text it is sent. *)
Definition detectLanguage (service : string -> reply) (text : string)
  : JS.result string :=
  try_catch
    (match service (substring 0 500 text) with
     | Unavailable e => Throw e
     | Content None =>
         Throw (TypeError "Cannot read properties of null (reading 'trim')")
     | Content (Some content) => Ok (toLowerCase (trim_string content))
     end)
    (fun _ => Ok "en").

(** A list of characters that does not start with white space. *)
Definition clean (l : list ascii) : Prop :=
  match l with
  | [] => True
  | c :: _ => is_ws c = false
  end.

End Calls.

(* ===================================================================== *)
(** ** The loop of the queue worker ([src/utils/queue-worker.js])         *)
(* ===================================================================== *)

Module Loop.
Import JS Worker.
Open Scope string_scope.

(** The lines the worker itself logs. *)
Inductive event : Type :=
| Started
| Stopping
| LoopError (e : error).

(** The worker object: the flag, the counter and the writes of
    [processJob], the log of the loop (most recent first), and the total
    of the milliseconds slept. *)
Record worker := {
  running : bool;
  jobs : Worker.state;
  events : list event;
  slept : Z
}.

(** What [await this.redis.brpop(queue, 5)] gives, together with
    [JSON.parse] of the element: the call is rejected; it times out with
    [null]; or it returns an element, which [JSON.parse] rejects or turns
    into the job object a ticket route wrote. *)
Inductive popped : Type :=
| Rejected (e : error)
| Nothing
| Element (parsed : result job).

(** One turn of the loop as the outside world drives it: the pop, the
    behaviour of the calls [processJob] awaits, and whether [stop()] is
    called while the turn awaits. The model has one loop: [start()] is not
    called again before the loop has seen a [stop()]. *)
Record iteration := {
  pop : popped;
  env : environment;
  stop_called : bool
}.

Definition with_jobs (st : Worker.state) (w : worker) : worker :=
  {| running := running w; jobs := st; events := events w;
     slept := slept w |}.

Definition log_event (e : event) (w : worker) : worker :=
  {| running := running w; jobs := jobs w; events := e :: events w;
     slept := slept w |}.

Definition sleep (ms : Z) (w : worker) : worker :=
  {| running := running w; jobs := jobs w; events := events w;
     slept := slept w + ms |}.

Definition set_running (b : bool) (w : worker) : worker :=
  {| running := b; jobs := jobs w; events := events w; slept := slept w |}.

(** [stop()] *)
Definition stop (w : worker) : worker :=
  log_event Stopping (set_running false w).

(** The [try] block of the loop. *)
Definition turn (it : iteration) : M unit :=
  match pop it with
  | Rejected e => lift (Throw e)
  | Nothing => ret tt
  | Element (Throw e) => lift (Throw e)
  | Element (Ok j) => processJob (env it) j
  end.

(** The body of the [while]: the [try] block and the [catch] block. *)
Definition iterate (it : iteration) (w : worker) : worker :=
  let '(r, st) := turn it (jobs w) in
  let w := with_jobs st w in
  let w :=
    match r with
    | Ok _ => w
    | Throw e => sleep 1000 (log_event (LoopError e) w)
    end in
  if stop_called it then stop w else w.

(** [processLoop], for as many turns as the schedule describes. *)
Fixpoint processLoop (schedule : list iteration) (w : worker) : worker :=
  match schedule with
  | [] => w
  | it :: rest =>
      if running w then processLoop rest (iterate it w) else w
  end.

(** [start()] *)
Definition start (schedule : list iteration) (w : worker) : worker :=
  if running w then w
  else processLoop schedule (log_event Started (set_running true w)).

(** [getStats()] *)
Definition getStats (w : worker) : bool * Z :=
  (running w, processingCount (jobs w)).

(** The number of errors among the events. *)
Definition is_error (e : event) : bool :=
  match e with LoopError _ => true | _ => false end.

Definition errors (l : list event) : Z :=
  Z.of_nat (List.length (filter is_error l)).

(** A turn on which the loop pops the job [j]. *)
Definition pops (j : job) (it : iteration) : Prop :=
  pop it = Element (Ok j).

End Loop.

Module LoopSample.
Import JS Loop.
Open Scope string_scope.

(** A worker that has just been started. *)
Definition started : worker :=
  {| running := true; jobs := Sample.idle; events := [Started]; slept := 0 |}.

(** The queue server refuses the pop. *)
Definition refused : iteration :=
  {| pop := Rejected Sample.connection_refused; env := Sample.service_down;
     stop_called := false |}.

(** The element popped is not JSON. *)
Definition garbled : iteration :=
  {| pop := Element (Throw (mkError (Some "Unexpected token") None));
     env := Sample.service_down; stop_called := false |}.

(** A job is popped. *)
Definition takes_job : iteration :=
  {| pop := Element (Ok Sample.job); env := Sample.service_down;
     stop_called := false |}.

(** A job is popped, and [stop()] is called while it is processed. *)
Definition last_job : iteration :=
  {| pop := Element (Ok Sample.job); env := Sample.service_down;
     stop_called := true |}.

End LoopSample.

(* ===================================================================== *)
(** ** Properties                                                         *)
(* ===================================================================== *)

Import JS.
Open Scope string_scope.

(** *** The model on concrete inputs *)

Example to_number_word : to_number (VStr "high") = Ok NaN.
Proof. reflexivity. Qed.

Example to_number_literal : to_number (VStr " 12.5e1 ") = Ok (Fin 125.0).
Proof. reflexivity. Qed.

Example to_number_plain_object : to_number (VObj []) = Ok NaN.
Proof. reflexivity. Qed.

Example to_string_array :
  to_string (VArr [VNum (Fin 1); VNull; VStr "a"; VArr [VBool true]])
  = Ok "1,,a,true".
Proof. reflexivity. Qed.

Example compare_string_with_number :
  js_gt (VStr "10") (VNum (Fin 9)) = Ok true
  /\ js_gt (VStr "10") (VStr "9") = Ok false
  /\ js_ge VUndef (VNum (Fin 0)) = Ok false
  /\ js_le VNull (VNum (Fin 0)) = Ok true.
Proof. now repeat split. Qed.

Example sort_is_stable :
  sort (fun a b => num_of_Z (fst a - fst b))
       [(3, "a"); (1, "b"); (3, "c"); (2, "d"); (1, "e")]%Z
  = [(1, "b"); (1, "e"); (2, "d"); (3, "a"); (3, "c")]%Z.
Proof. reflexivity. Qed.

(** Scenario A of the specification. The team has skills, so the
    callback of line 168 is evaluated and throws: no decision is
    returned. *)
Example scenario_A :
  Router.route Sample.billing_ticket [Sample.A1] [Sample.T1] []
  = Throw (ReferenceError "skill is not defined").
Proof. reflexivity. Qed.

(** Scenario B of the specification: the same. With no team to choose
    from, the escalation reaches the filter for team leads, whose callback
    (line 270) throws on the first agent that has memberships. *)
Example scenario_B :
  Router.route Sample.fraud_ticket [Sample.A1; Sample.manager]
               [Sample.T1] []
  = Throw (ReferenceError "skill is not defined")
  /\ Router.route Sample.fraud_ticket [Sample.A1; Sample.manager] [] []
     = Throw (ReferenceError "tm is not defined").
Proof. split; reflexivity. Qed.

(** Without skills on the team and memberships on the agents the router
    returns: the ticket escalates to the manager. *)
Example scenario_B_returns :
  exists d,
    Router.route Sample.fraud_ticket
                 [Sample.freelancer; Sample.duty_manager] [Sample.T0] []
    = Ok d
    /\ Router.Routing.assignToTeam d = Some "T0"
    /\ Router.Routing.assignToUser d = Some "M2"
    /\ Router.Routing.setPriority d = Some "urgent"
    /\ Router.Routing.addTags d = ["escalated"].
Proof. eexists. split; [vm_compute; reflexivity|]. now repeat split. Qed.

(** Two load ratios that are one double: the agent listed first is the
    least busy one. *)
Example equal_doubles :
  Router.load_ratio Sample.nearly_full_1
  = Router.load_ratio Sample.nearly_full_2
  /\ Router.findLeastBusyAgent [Sample.nearly_full_1; Sample.nearly_full_2]
     = Some Sample.nearly_full_1
  /\ Router.findLeastBusyAgent [Sample.nearly_full_2; Sample.nearly_full_1]
     = Some Sample.nearly_full_2.
Proof. repeat split; vm_compute; reflexivity. Qed.

(** A rule with a range condition and a one-of list. *)
Example rule_with_operators :
  Router.matchesRule Sample.billing_ticket
    (VObj [("category", VArr [VStr "billing"; VStr "account"]);
           ("sentiment_score", VObj [("$gte", VNum (Fin (-1)));
                                     ("$lt", VNum (Fin 0.5))]);
           ("priority", VObj [("$ne", VStr "urgent")]);
           ("sentiment", VStr "neutral")])
  = Ok true.
Proof. reflexivity. Qed.

(** The well-formed sample answer, normalized. *)
Example classify_answer :
  exists c,
    Classifier.classify Sample.cfg Sample.clock Sample.answer = Ok c
    /\ Classifier.category c = "billing"
    /\ Classifier.priority c = "high"
    /\ Classifier.Sentiment.label (Classifier.sentiment c) = "negative"
    /\ Classifier.Confidence.sentiment (Classifier.confidence c) = Fin 1
    /\ Classifier.processingTimeMs c = 7%Z.
Proof. eexists. split; [vm_compute; reflexivity|]. now repeat split. Qed.

(** A job processed without failure, with auto-routing enabled. *)
Example job_processed :
  exists st,
    Worker.processJob
      {| Worker.cfg := Sample.cfg; Worker.now := Sample.clock;
         Worker.service := Sample.answer;
         Worker.insert_classification := None;
         Worker.update_ticket := None;
         Worker.ENABLE_AUTO_ROUTING := true;
         Worker.push_routing := None; Worker.push_retry := None |}
      Sample.job Sample.idle = (Ok tt, st)
    /\ Worker.routing_queue st = [("ticket-1", "tenant-1")]
    /\ Worker.retry_queue st = []
    /\ Worker.processingCount st = 0%Z
    /\ List.length (Worker.log st) = 2%nat.
Proof. eexists. split; [vm_compute; reflexivity|]. now repeat split. Qed.

(** *** The stable sort *)

Section SortFacts.
Variable A : Type.
Variable cmp : A -> A -> number.

Local Abbreviation precedes := (JS.precedes cmp).
Local Abbreviation ties := (JS.ties cmp).
Local Abbreviation sorted := (JS.sorted cmp).

Lemma sort_insert_perm x l : Permutation (sort_insert cmp x l) (x :: l).
Proof.
  induction l as [|y l IH]; simpl; [reflexivity|].
  destruct (cmp_nonpos (cmp x y)); [reflexivity|].
  rewrite IH. apply perm_swap.
Qed.

Lemma sort_perm l : Permutation (sort cmp l) l.
Proof.
  induction l as [|x l IH]; simpl; [constructor|].
  rewrite sort_insert_perm. now constructor.
Qed.

Lemma in_sort x l : In x (sort cmp l) <-> In x l.
Proof.
  split; apply Permutation_in;
    [apply sort_perm | symmetry; apply sort_perm].
Qed.

Lemma sort_nil_inv l : sort cmp l = [] -> l = [].
Proof.
  intros H. pose proof (sort_perm l) as P. rewrite H in P.
  now apply Permutation_nil.
Qed.

(** An element that must stand after nothing of [l1], and that may stand
    before everything of [l2], heads the sorted list. *)
Lemma sort_insert_head x s :
  (forall y, In y s -> precedes x y = true) ->
  sort_insert cmp x s = x :: s.
Proof.
  destruct s as [|y s]; simpl; [reflexivity|]. intros H.
  unfold precedes in H. now rewrite (H y (or_introl eq_refl)).
Qed.

Lemma sort_head x l1 l2 :
  (forall y, In y l1 -> precedes y x = false) ->
  (forall y, In y l2 -> precedes x y = true) ->
  sort cmp (l1 ++ x :: l2) = x :: sort cmp (l1 ++ l2).
Proof.
  intros H1 H2. induction l1 as [|y l1 IH]; simpl.
  - apply sort_insert_head. intros y Hy. apply H2. now apply in_sort.
  - rewrite IH by (intros z Hz; apply H1; now right). simpl.
    specialize (H1 y (or_introl eq_refl)). unfold precedes in H1.
    now rewrite H1.
Qed.

Hypothesis precedes_total :
  forall x y, precedes x y = true \/ precedes y x = true.
Hypothesis precedes_trans :
  forall x y z,
    precedes x y = true -> precedes y z = true -> precedes x z = true.

Lemma precedes_refl x : precedes x x = true.
Proof. now destruct (precedes_total x x). Qed.

Lemma sort_insert_sorted x l : sorted l -> sorted (sort_insert cmp x l).
Proof.
  unfold sorted. induction 1 as [|y l Hl IH Hy]; simpl.
  - repeat constructor.
  - destruct (cmp_nonpos (cmp x y)) eqn:E.
    + constructor; [now constructor|].
      constructor; [exact E|].
      rewrite Forall_forall in *. intros z Hz.
      apply precedes_trans with y; [exact E | now apply Hy].
    + constructor; [exact IH|].
      rewrite Forall_forall in *. intros z Hz.
      apply (Permutation_in _ (sort_insert_perm x l)) in Hz.
      destruct Hz as [<- | Hz]; [|now apply Hy].
      destruct (precedes_total x y) as [H | H]; [|exact H].
      unfold precedes in H. congruence.
Qed.

Lemma sort_sorted l : sorted (sort cmp l).
Proof.
  induction l as [|x l IH]; simpl; [constructor|].
  now apply sort_insert_sorted.
Qed.

(** Stability: the elements that tie with [z] keep their order. *)
Lemma sort_insert_stable z x l :
  filter (ties z) (sort_insert cmp x l) = filter (ties z) (x :: l).
Proof.
  induction l as [|y l IH]; [reflexivity|].
  simpl sort_insert. destruct (cmp_nonpos (cmp x y)) eqn:E; [reflexivity|].
  change (filter (ties z) (y :: sort_insert cmp x l))
    with (if ties z y then y :: filter (ties z) (sort_insert cmp x l)
          else filter (ties z) (sort_insert cmp x l)).
  rewrite IH. simpl.
  destruct (ties z x) eqn:Hx, (ties z y) eqn:Hy; try reflexivity.
  exfalso. unfold ties in Hx, Hy.
  apply andb_prop in Hx as [_ Hxz], Hy as [Hzy _].
  pose proof (precedes_trans _ _ _ Hxz Hzy) as H.
  unfold precedes in H. congruence.
Qed.

Lemma sort_stable z l : filter (ties z) (sort cmp l) = filter (ties z) l.
Proof.
  induction l as [|x l IH]; [reflexivity|].
  simpl sort. rewrite sort_insert_stable. simpl. now rewrite IH.
Qed.

Lemma ties_refl x : ties x x = true.
Proof. unfold ties. now rewrite precedes_refl. Qed.

(** A sorted list is determined by its classes of tied elements. *)
Lemma sorted_unique l1 : forall l2,
  sorted l1 -> sorted l2 ->
  (forall z, filter (ties z) l1 = filter (ties z) l2) ->
  l1 = l2.
Proof.
  induction l1 as [|x l1 IH]; intros l2 S1 S2 H.
  - destruct l2 as [|y l2]; [reflexivity|].
    specialize (H y). cbn [filter] in H. rewrite ties_refl in H.
    discriminate.
  - destruct l2 as [|y l2].
    + specialize (H x). cbn [filter] in H. rewrite ties_refl in H.
      discriminate.
    + inversion S1 as [|? ? S1' F1]; inversion S2 as [|? ? S2' F2]; subst.
      rewrite Forall_forall in F1, F2.
      assert (Hin : forall z l, In z (filter (ties z) (z :: l))).
      { intros z l. cbn [filter]. rewrite ties_refl. now left. }
      assert (Hxy : precedes y x = true).
      { pose proof (Hin x l1) as Hx. rewrite H in Hx.
        apply filter_In in Hx as [[-> | Hx] _];
          [apply precedes_refl | now apply F2]. }
      assert (Hyx : precedes x y = true).
      { pose proof (Hin y l2) as Hy. rewrite <- H in Hy.
        apply filter_In in Hy as [[-> | Hy] _];
          [apply precedes_refl | now apply F1]. }
      assert (x = y) as <-.
      { specialize (H x). cbn [filter] in H. rewrite ties_refl in H.
        unfold ties at 2 in H. rewrite Hxy, Hyx in H. simpl in H.
        congruence. }
      f_equal. apply IH; try assumption.
      intros z. specialize (H z). cbn [filter] in H.
      destruct (ties z x); congruence.
Qed.

(** Two arrangements of the same rows with the same order inside every
    class of tied rows sort to the same list. *)
Lemma sort_order_independent l1 l2 :
  (forall z, filter (ties z) l1 = filter (ties z) l2) ->
  sort cmp l1 = sort cmp l2.
Proof.
  intros H. apply sorted_unique; try apply sort_sorted.
  intros z. now rewrite !sort_stable.
Qed.

(** The head of the sorted list may stand before every element, and is
    the first of the given list among those it ties with. *)
Lemma sort_hd_least a l :
  hd_error (sort cmp l) = Some a ->
  In a l /\ (forall b, In b l -> precedes a b = true)
  /\ hd_error (filter (ties a) l) = Some a.
Proof.
  intros H. pose proof (sort_sorted l) as S.
  pose proof (sort_stable a l) as St.
  destruct (sort cmp l) as [|x s] eqn:E; [discriminate|].
  injection H as ->. repeat split.
  - apply in_sort. rewrite E. now left.
  - intros b Hb. apply in_sort in Hb. rewrite E in Hb.
    inversion S as [|? ? _ F]; subst. rewrite Forall_forall in F.
    destruct Hb as [<- | Hb]; [apply precedes_refl | now apply F].
  - rewrite <- St. cbn [filter]. now rewrite ties_refl.
Qed.
End SortFacts.

(** Comparators of the form [key a - key b]. *)
Section KeyOrder.
Variable A : Type.
Variable key : A -> Q.

Local Abbreviation by_key := (JS.by_key key).

Lemma precedes_by_key a b :
  precedes by_key a b = true <-> key a <= key b.
Proof.
  unfold precedes, by_key, cmp_nonpos. rewrite Qle_bool_iff. lra.
Qed.

Lemma by_key_total a b :
  precedes by_key a b = true \/ precedes by_key b a = true.
Proof.
  rewrite !precedes_by_key.
  destruct (Qlt_le_dec (key b) (key a)); [right | left]; lra.
Qed.

Lemma by_key_trans a b c :
  precedes by_key a b = true -> precedes by_key b c = true ->
  precedes by_key a c = true.
Proof. rewrite !precedes_by_key. lra. Qed.

(** The head of the list sorted by [key] has the least key. *)
Lemma sort_by_key_least a l :
  hd_error (sort by_key l) = Some a ->
  In a l /\ forall b, In b l -> key a <= key b.
Proof.
  intros H.
  destruct (@sort_hd_least A by_key by_key_total by_key_trans a l H)
    as (Hin & Hle & _).
  split; [exact Hin|]. intros b Hb. now apply precedes_by_key, Hle.
Qed.

Lemma sort_by_key_nonempty l :
  l <> [] -> exists a, hd_error (sort by_key l) = Some a.
Proof.
  intros Hl. destruct (sort by_key l) as [|a s] eqn:E.
  - now apply sort_nil_inv in E.
  - now exists a.
Qed.
End KeyOrder.

(** *** Facts about strings *)

Lemma toLowerCase_app a b :
  toLowerCase (a ++ b) = toLowerCase a ++ toLowerCase b.
Proof. induction a as [|c a IH]; simpl; [reflexivity | now rewrite IH]. Qed.

Lemma prefix_app k : forall a b,
  String.prefix k a = true -> String.prefix k (a ++ b) = true.
Proof.
  induction k as [|c k IH]; intros a b H.
  - now destruct (a ++ b).
  - destruct a as [|d a]; simpl in *; [discriminate|].
    destruct (ascii_dec c d); [now apply IH | discriminate].
Qed.

Lemma str_includes_app_l a b k :
  str_includes a k = true -> str_includes (a ++ b) k = true.
Proof.
  induction a as [|c a IH]; intros H.
  - destruct k; simpl in H; [|discriminate]. now destruct b.
  - cbn [str_includes append] in *. apply orb_true_iff in H as [H | H].
    + apply (prefix_app _ _ b) in H. cbn [append] in H. now rewrite H.
    + rewrite (IH H). apply orb_true_r.
Qed.

Lemma str_includes_app_r a b k :
  str_includes b k = true -> str_includes (a ++ b) k = true.
Proof.
  intros H. induction a as [|c a IH]; cbn [str_includes append]; [exact H|].
  rewrite IH. apply orb_true_r.
Qed.

(** *** The routing engine *)

Module RouterFacts.
Import Router Spec Vocabulary.

Lemma precedes_by_priority a b :
  precedes by_priority_desc a b
  = (effective_priority b <=? effective_priority a)%Z.
Proof.
  unfold precedes, by_priority_desc, num_sub, num_of_Z, effective_priority.
  simpl. apply eq_true_iff_eq. rewrite Qle_bool_iff, Z.leb_le.
  unfold Qle. simpl. lia.
Qed.

Lemma by_priority_total a b :
  precedes by_priority_desc a b = true
  \/ precedes by_priority_desc b a = true.
Proof. rewrite !precedes_by_priority, !Z.leb_le. lia. Qed.

Lemma by_priority_trans a b c :
  precedes by_priority_desc a b = true ->
  precedes by_priority_desc b c = true ->
  precedes by_priority_desc a c = true.
Proof. rewrite !precedes_by_priority, !Z.leb_le. lia. Qed.

Lemma ties_by_priority z r :
  ties by_priority_desc z r = has_priority (effective_priority z) r.
Proof.
  unfold ties, has_priority. rewrite !precedes_by_priority.
  apply eq_true_iff_eq. rewrite andb_true_iff, !Z.leb_le, Z.eqb_eq. lia.
Qed.

Lemma applyRoutingRules_sorted ticket rules :
  applyRoutingRules ticket rules
  = first_match ticket (sort by_priority_desc rules).
Proof. now destruct rules. Qed.

(** The sorted rules depend only on the order inside each priority. *)
Lemma sort_rules_order_independent rules rules' :
  (forall p, filter (has_priority p) rules = filter (has_priority p) rules') ->
  sort by_priority_desc rules = sort by_priority_desc rules'.
Proof.
  intros H.
  apply (@sort_order_independent _ by_priority_desc
           by_priority_total by_priority_trans).
  intros z.
  rewrite (filter_ext _ _ (ties_by_priority z) rules).
  rewrite (filter_ext _ _ (ties_by_priority z) rules'). apply H.
Qed.

Lemma filter_perm {A} (f : A -> bool) l l' :
  Permutation l l' -> Permutation (filter f l) (filter f l').
Proof.
  induction 1 as [|x l l' _ IH|x y l|l l' l'' _ IH1 _ IH2]; simpl.
  - constructor.
  - destruct (f x); [now constructor | exact IH].
  - destruct (f x), (f y); try reflexivity. apply perm_swap.
  - now transitivity (filter f l').
Qed.

(** With pairwise distinct priorities every class has at most one rule. *)
Lemma distinct_priority_class p rules :
  NoDup (map effective_priority rules) ->
  (List.length (filter (has_priority p) rules) <= 1)%nat.
Proof.
  induction rules as [|r rules IH]; simpl; intros H; [lia|].
  inversion H as [|? ? Hr H']; subst. specialize (IH H').
  destruct (has_priority p r) eqn:E; [|exact IH]. simpl.
  destruct (filter (has_priority p) rules) as [|r' f] eqn:F; simpl; [lia|].
  exfalso. apply Hr.
  assert (Hin : In r' (filter (has_priority p) rules))
    by (rewrite F; now left).
  apply filter_In in Hin as [Hin E'].
  unfold has_priority in E, E'. apply Z.eqb_eq in E, E'.
  rewrite E, <- E'. now apply in_map.
Qed.

Lemma short_perm_eq {A} (l l' : list A) :
  (List.length l <= 1)%nat -> Permutation l l' -> l = l'.
Proof.
  intros Hl P. destruct l as [|x [|y l]]; simpl in Hl; try lia.
  - symmetry. now apply Permutation_nil.
  - symmetry. now apply Permutation_length_1_inv.
Qed.

Lemma distinct_priorities_classes rules rules' :
  NoDup (map effective_priority rules) ->
  Permutation rules rules' ->
  forall p, filter (has_priority p) rules = filter (has_priority p) rules'.
Proof.
  intros Hd P p. apply short_perm_eq.
  - now apply distinct_priority_class.
  - now apply filter_perm.
Qed.

(** **** The shape of [route] *)

Lemma route_inv ticket agents teams rules d :
  route ticket agents teams rules = Ok d ->
  exists r3 r4,
    route_steps_1_to_3 ticket agents teams rules = Ok r3
    /\ handle_escalation ticket agents r3 = Ok r4
    /\ d = Routing.with_confidence
             (calculateRoutingConfidence (load_balance agents r4) ticket)
             (load_balance agents r4).
Proof.
  unfold route, route_steps_4_to_6. intros H.
  destruct (route_steps_1_to_3 ticket agents teams rules) as [r3|e];
    cbn [bind] in H; [|discriminate].
  destruct (handle_escalation ticket agents r3) as [r4|e] eqn:E;
    cbn [bind] in H; [|discriminate].
  injection H as <-. exists r3, r4. now repeat split.
Qed.

Lemma load_balance_keeps agents routing :
  Routing.setPriority (load_balance agents routing)
  = Routing.setPriority routing
  /\ Routing.addTags (load_balance agents routing) = Routing.addTags routing
  /\ Routing.assignToTeam (load_balance agents routing)
     = Routing.assignToTeam routing.
Proof.
  unfold load_balance.
  destruct (negb _ && negb _); [|now repeat split].
  now destruct (findLeastBusyAgent agents).
Qed.

Lemma handle_escalation_marks ticket agents routing r4 :
  handle_escalation ticket agents routing = Ok r4 ->
  Routing.setPriority r4
  = (if shouldEscalate ticket then Some "urgent"
     else Routing.setPriority routing)
  /\ Routing.addTags r4
     = (Routing.addTags routing
        ++ (if shouldEscalate ticket then ["escalated"] else []))%list
  /\ Routing.assignToTeam r4 = Routing.assignToTeam routing.
Proof.
  unfold handle_escalation. destruct (shouldEscalate ticket).
  - destruct (findSeniorAgent agents _) as [[s|]|e]; cbn [bind];
      try discriminate; intros [= <-]; now repeat split.
  - intros [= <-]. rewrite app_nil_r. now repeat split.
Qed.

(** **** Escalation signals *)

Lemma shouldEscalate_signal ticket :
  escalation_signal ticket -> shouldEscalate ticket = true.
Proof.
  unfold shouldEscalate.
  intros [H | [H | [(score & H & Hs) | (keyword & Hk & H)]]].
  - now rewrite H.
  - rewrite H. now destruct (is_str (Ticket.priority ticket) "urgent").
  - destruct (is_str (Ticket.priority ticket) "urgent"); [reflexivity|].
    destruct (is_str (Ticket.sentiment ticket) "very_negative");
      [reflexivity|].
    rewrite H. unfold column_lt.
    destruct (Qle_bool (- (1 # 2)) score) eqn:E; [|reflexivity].
    apply Qle_bool_iff in E. lra.
  - destruct (is_str (Ticket.priority ticket) "urgent"); [reflexivity|].
    destruct (is_str (Ticket.sentiment ticket) "very_negative");
      [reflexivity|].
    destruct (column_lt (Ticket.sentiment_score ticket) (- (1 # 2)));
      [reflexivity|].
    apply existsb_exists. exists keyword. split; [exact Hk|].
    rewrite !toLowerCase_app. destruct H as [H | H].
    + now apply str_includes_app_l.
    + now apply str_includes_app_r, str_includes_app_r.
Qed.

(** **** The callbacks without their arrow *)

Lemma find_team_spec rs teams :
  find_m (team_has_skill rs) teams
  = if existsb skilled teams
    then Throw (ReferenceError "skill is not defined")
    else Ok None.
Proof.
  induction teams as [|team teams IH]; cbn [find_m existsb]; [reflexivity|].
  unfold team_has_skill at 1, skilled at 1.
  destruct (Team.skills team) as [[|sk skills]|]; cbn [bind orb];
    try exact IH; reflexivity.
Qed.

(** [findTeamByCategory] throws when a team has a skill, and otherwise
    returns the first team, whatever the category. *)
Lemma team_by_category_spec category teams :
  findTeamByCategory category teams
  = if existsb skilled teams
    then Throw (ReferenceError "skill is not defined")
    else Ok (hd_error teams).
Proof.
  unfold findTeamByCategory. destruct teams as [|first rest]; [reflexivity|].
  cbv zeta. rewrite find_team_spec.
  now destruct (existsb skilled (first :: rest)).
Qed.

Lemma filter_leads_spec teamId agents :
  filter_m (is_lead teamId) agents
  = if existsb has_memberships agents
    then Throw (ReferenceError "tm is not defined")
    else Ok [].
Proof.
  induction agents as [|a agents IH]; cbn [filter_m existsb]; [reflexivity|].
  unfold is_lead at 1, has_memberships at 1.
  destruct (Agent.team_members a); cbn [bind orb]; [reflexivity|].
  rewrite IH. now destruct (existsb has_memberships agents).
Qed.

(** [findSeniorAgent] throws when an agent comes with memberships, and
    otherwise returns the least busy manager. *)
Lemma senior_agent_spec agents teamId :
  findSeniorAgent agents teamId
  = if existsb has_memberships agents
    then Throw (ReferenceError "tm is not defined")
    else Ok (findLeastBusyAgent (filter is_manager agents)).
Proof.
  unfold findSeniorAgent. destruct agents as [|a0 agents]; [reflexivity|].
  rewrite filter_leads_spec.
  destruct (existsb has_memberships (a0 :: agents)); cbn [bind];
    [reflexivity|].
  now destruct (filter is_manager (a0 :: agents)).
Qed.

Lemma member_has_memberships teamId a :
  in_team teamId a = true -> has_memberships a = true.
Proof.
  unfold in_team, has_memberships.
  now destruct (Agent.team_members a).
Qed.

Lemma score_agent_throws teamId ticket a :
  has_memberships a = true ->
  score_agent teamId ticket a = Throw (ReferenceError "skill is not defined")
  \/ score_agent teamId ticket a = Throw (ReferenceError "tm is not defined").
Proof.
  unfold has_memberships, score_agent.
  destruct (Agent.team_members a); [intros _ | discriminate].
  destruct (Agent.skills a) as [skills|], (Ticket.category ticket) as [c|];
    cbn [bind]; try (now right).
  destruct (String.eqb c ""); cbn [bind]; [now right | now left].
Qed.

(** [findBestAgentInTeam] returns nothing when the team has no member
    among the agents, and throws otherwise. *)
Lemma best_agent_spec teamId agents ticket :
  match filter (in_team teamId) agents with
  | [] => findBestAgentInTeam teamId agents ticket = Ok None
  | _ :: _ =>
      findBestAgentInTeam teamId agents ticket
      = Throw (ReferenceError "skill is not defined")
      \/ findBestAgentInTeam teamId agents ticket
         = Throw (ReferenceError "tm is not defined")
  end.
Proof.
  unfold findBestAgentInTeam. destruct agents as [|a0 agents]; [reflexivity|].
  destruct (filter (in_team teamId) (a0 :: agents)) as [|b bs] eqn:F;
    [reflexivity|].
  assert (Hb : has_memberships b = true).
  { apply (member_has_memberships teamId).
    assert (Hin : In b (filter (in_team teamId) (a0 :: agents)))
      by (rewrite F; now left).
    now apply filter_In in Hin. }
  cbn [map_m].
  destruct (score_agent_throws teamId ticket b Hb) as [-> | ->];
    [now left | now right].
Qed.

(** Step 3 never assigns a user: when it returns, the decision is what
    it was. *)
Lemma assign_best_agent_inv ticket agents r2 r3 :
  assign_best_agent ticket agents r2 = Ok r3 -> r3 = r2.
Proof.
  unfold assign_best_agent.
  destruct (Routing.assignToTeam r2) as [teamId|]; [|now intros [= <-]].
  destruct (truthy_str (Some teamId) && _); [|now intros [= <-]].
  pose proof (best_agent_spec teamId agents ticket) as B.
  destruct (filter (in_team teamId) agents).
  - rewrite B. cbn [bind]. now intros [= <-].
  - destruct B as [-> | ->]; discriminate.
Qed.

Lemma first_match_returns ticket rules :
  rules_evaluate ticket rules ->
  exists m, first_match ticket rules = Ok m.
Proof.
  induction 1 as [|rule rules [b Hb] _ [m IH]]; simpl; [now eexists|].
  rewrite Hb. simpl. destruct b; [now eexists | rewrite IH; now eexists].
Qed.

(** **** Escalation *)

Lemma escalation_throws ticket agents routing :
  shouldEscalate ticket = true ->
  existsb has_memberships agents = true ->
  handle_escalation ticket agents routing
  = Throw (ReferenceError "tm is not defined").
Proof.
  intros E M. unfold handle_escalation. rewrite E, senior_agent_spec, M.
  reflexivity.
Qed.

(** C1. For a ticket with one of the four escalation signals, a decision
    that [route] returns has [setPriority = 'urgent'] and ['escalated']
    among [addTags]. But [route] returns such a decision only when no
    agent comes with an array of memberships: as soon as one does, the
    escalation step reaches the callback of line 270 (unless an earlier
    step has thrown already) and [route] throws instead of returning the
    decision. *)
Theorem escalation_throws_with_memberships ticket agents teams rules :
  escalation_signal ticket ->
  (forall d,
      route ticket agents teams rules = Ok d ->
      Routing.setPriority d = Some "urgent"
      /\ In "escalated" (Routing.addTags d)
      /\ existsb has_memberships agents = false)
  /\ (existsb has_memberships agents = true ->
      exists e, route ticket agents teams rules = Throw e).
Proof.
  intros Hs. apply shouldEscalate_signal in Hs. split.
  - intros d Hd. apply route_inv in Hd as (r3 & r4 & _ & H4 & ->).
    cbn [Routing.with_confidence Routing.setPriority Routing.addTags].
    destruct (@load_balance_keeps agents r4) as (-> & -> & _).
    destruct (handle_escalation_marks _ _ _ H4) as (-> & -> & _).
    rewrite Hs. split; [reflexivity|].
    split; [apply in_or_app; right; now left|].
    destruct (existsb has_memberships agents) eqn:M; [|reflexivity].
    rewrite (@escalation_throws ticket agents r3 Hs M) in H4. discriminate.
  - intros M. unfold route.
    destruct (route_steps_1_to_3 ticket agents teams rules) as [r3|e];
      cbn [bind]; [|now eexists].
    unfold route_steps_4_to_6.
    rewrite (@escalation_throws ticket agents r3 Hs M). now eexists.
Qed.

(** Scenario B of the specification. *)
Lemma escalation_throws_with_memberships_witness :
  exists e,
    route Sample.fraud_ticket [Sample.A1; Sample.busy_lead; Sample.lead]
          [Sample.T1] [Sample.billing_rule] = Throw e.
Proof.
  refine (proj2 (@escalation_throws_with_memberships Sample.fraud_ticket
                   [Sample.A1; Sample.busy_lead; Sample.lead]
                   [Sample.T1] [Sample.billing_rule] _) eq_refl).
  right; right; right. exists "fraud". split.
  - simpl. tauto.
  - right. vm_compute. reflexivity.
Defined.

(** **** The final confidence *)

(** A [null] column converts to 0, which exceeds no bound that is at
    least 0. *)
Lemma column_gt_exceeds o bound :
  0 <= bound -> column_gt o bound = exceeds o bound.
Proof.
  intros Hb. destruct o as [x|]; simpl.
  - destruct (Qlt_le_dec bound x) as [H | H].
    + destruct (Qle_bool x bound) eqn:E; [|reflexivity].
      apply Qle_bool_iff in E. lra.
    + apply Qle_bool_iff in H. now rewrite H.
  - apply Qle_bool_iff in Hb. now rewrite Hb.
Qed.

Lemma confidence_by_formula routing ticket :
  exists q,
    calculateRoutingConfidence routing ticket = Fin q
    /\ q == confidence_formula
              (truthy_str (Routing.assignToTeam routing)
               && truthy_str (Routing.assignToUser routing))
              (flag (Ticket.ai_processed ticket))
              (exceeds (Ticket.ai_confidence ticket) 0.8).
Proof.
  unfold calculateRoutingConfidence.
  rewrite column_gt_exceeds by (vm_compute; discriminate).
  replace (truthy (Ticket.of_bool (Ticket.ai_processed ticket)))
    with (flag (Ticket.ai_processed ticket))
    by (now destruct (Ticket.ai_processed ticket) as [[|]|]).
  destruct (truthy_str (Routing.assignToTeam routing)
            && truthy_str (Routing.assignToUser routing)),
    (flag (Ticket.ai_processed ticket)),
    (exceeds (Ticket.ai_confidence ticket) 0.8);
    (eexists; split; [vm_compute; reflexivity | vm_compute; reflexivity]).
Qed.

(** C7. The confidence of every decision [route] returns is
    min(1, 0.5 + 0.3 [team and user both assigned] + 0.1 [ai_processed]
    + 0.1 [ai_confidence > 0.8]), computed from the final assignment: the
    0.9 a rule match stores in step 1 never reaches the decision unless the
    formula yields that value. *)
Theorem final_confidence_formula ticket agents teams rules d :
  route ticket agents teams rules = Ok d ->
  exists q,
    Routing.confidence d = Fin q
    /\ q == confidence_formula
              (truthy_str (Routing.assignToTeam d)
               && truthy_str (Routing.assignToUser d))
              (flag (Ticket.ai_processed ticket))
              (exceeds (Ticket.ai_confidence ticket) 0.8).
Proof.
  intros Hd. apply route_inv in Hd as (r3 & r4 & _ & _ & ->).
  cbn [Routing.with_confidence Routing.confidence Routing.assignToTeam
       Routing.assignToUser].
  apply confidence_by_formula.
Qed.

(** A rule matches and names a team and a user (step 1 stores 0.9): the
    decision carries 0.8. *)
Lemma final_confidence_formula_witness :
  applyRoutingRules Sample.billing_ticket [Sample.vip_rule]
  = Ok (Some (rule_actions Sample.vip_rule))
  /\ exists d q,
      route Sample.billing_ticket [] [] [Sample.vip_rule] = Ok d
      /\ Routing.confidence d = Fin q
      /\ q == confidence_formula true false false
      /\ ~ q == 0.9.
Proof.
  split; [vm_compute; reflexivity|].
  destruct (@final_confidence_formula Sample.billing_ticket [] []
              [Sample.vip_rule]
              (Sample.decision_of
                 (route Sample.billing_ticket [] [] [Sample.vip_rule]))
              ltac:(vm_compute; reflexivity)) as (q & Hq & Hf).
  eexists. exists q. split; [vm_compute; reflexivity|].
  split; [exact Hq|]. split; [exact Hf|].
  rewrite Hf. vm_compute. discriminate.
Defined.

(** **** Rules: empty conditions, order of evaluation *)

Lemma catch_all_heads ticket before rule after :
  Rule.conditions rule = VObj [] ->
  (forall r, In r before ->
             (effective_priority r < effective_priority rule)%Z) ->
  (forall r, In r after ->
             (effective_priority r <= effective_priority rule)%Z) ->
  applyRoutingRules ticket (before ++ rule :: after)
  = Ok (Some (rule_actions rule)).
Proof.
  intros Hc Hb Ha. rewrite applyRoutingRules_sorted, sort_head.
  - simpl. now rewrite Hc.
  - intros r Hr. rewrite precedes_by_priority. apply Z.leb_gt. now apply Hb.
  - intros r Hr. rewrite precedes_by_priority. apply Z.leb_le. now apply Ha.
Qed.

(** C10. A rule whose condition set is the empty object matches every
    ticket; a rule whose condition set is null or absent matches none.
    Hence a rule with empty conditions that no rule outranks (a rule of the
    same priority comes later in the list) is the one [applyRoutingRules]
    returns, and step 1 of [route] starts every decision from its actions. *)
Theorem empty_conditions_capture ticket :
  matchesRule ticket (VObj []) = Ok true
  /\ matchesRule ticket VNull = Ok false
  /\ matchesRule ticket VUndef = Ok false
  /\ forall before rule after,
      Rule.conditions rule = VObj [] ->
      (forall r, In r before ->
                 (effective_priority r < effective_priority rule)%Z) ->
      (forall r, In r after ->
                 (effective_priority r <= effective_priority rule)%Z) ->
      applyRoutingRules ticket (before ++ rule :: after)
      = Ok (Some (rule_actions rule))
      /\ forall agents teams,
          route_steps_1_to_3 ticket agents teams (before ++ rule :: after)
          = bind (route_by_category ticket teams
                    (apply_rule_match (Some (rule_actions rule)) initial))
                 (assign_best_agent ticket agents).
Proof.
  repeat split; try reflexivity.
  - now apply catch_all_heads.
  - intros agents teams. unfold route_steps_1_to_3.
    now rewrite catch_all_heads.
Qed.

Lemma empty_conditions_capture_witness :
  applyRoutingRules Sample.fraud_ticket
    [Sample.billing_rule; Sample.rule "all" 7 (VObj []) (Some "T1");
     Sample.rule "late" 7 (VObj []) (Some "T2")]
  = Ok (Some (rule_actions (Sample.rule "all" 7 (VObj []) (Some "T1")))).
Proof.
  destruct (@empty_conditions_capture Sample.fraud_ticket)
    as (_ & _ & _ & H).
  refine (proj1 (H [Sample.billing_rule]
                   (Sample.rule "all" 7 (VObj []) (Some "T1"))
                   [Sample.rule "late" 7 (VObj []) (Some "T2")]
                   eq_refl _ _)).
  - intros r [<- | []]. vm_compute. reflexivity.
  - intros r [<- | []]. vm_compute. discriminate.
Defined.

Lemma first_match_some ticket rules m :
  first_match ticket rules = Ok (Some m) ->
  exists before rule after,
    rules = (before ++ rule :: after)%list
    /\ Forall (fun r => matchesRule ticket (Rule.conditions r) = Ok false)
              before
    /\ matchesRule ticket (Rule.conditions rule) = Ok true
    /\ m = rule_actions rule.
Proof.
  induction rules as [|r rules IH]; cbn [first_match]; [discriminate|].
  destruct (matchesRule ticket (Rule.conditions r)) as [[|]|e] eqn:E;
    cbn [bind]; try discriminate.
  - intros [= <-]. exists [], r, rules. now repeat split.
  - intros H. destruct (IH H) as (before & rule & after & -> & Hb & Hr & Hm).
    exists (r :: before), rule, after. repeat split; try assumption.
    now constructor.
Qed.

Lemma first_match_none ticket rules :
  first_match ticket rules = Ok None
  <-> Forall (fun r => matchesRule ticket (Rule.conditions r) = Ok false)
             rules.
Proof.
  induction rules as [|r rules IH]; cbn [first_match].
  - split; [constructor | reflexivity].
  - split.
    + destruct (matchesRule ticket (Rule.conditions r)) as [[|]|e] eqn:E;
        cbn [bind]; try discriminate.
      intros H. constructor; [exact E | now apply IH].
    + intros H. inversion H as [|? ? H1 H2]; subst. rewrite H1. cbn [bind].
      now apply IH.
Qed.

Lemma sorted_after {A} (cmp : A -> A -> number) before x after :
  sorted cmp (before ++ x :: after)%list ->
  forall y, In y after -> precedes cmp x y = true.
Proof.
  unfold sorted. induction before as [|b before IH]; cbn [app]; intros S.
  - apply StronglySorted_inv in S. destruct S as [_ F].
    now rewrite Forall_forall in F.
  - apply StronglySorted_inv in S. now apply IH.
Qed.

(** Two matching rules of equal priority: the one listed first wins, so a
    permutation of the rules changes the match. *)
Lemma rule_order_matters :
  Permutation [Sample.catch_all_1; Sample.catch_all_2]
              [Sample.catch_all_2; Sample.catch_all_1]
  /\ applyRoutingRules Sample.billing_ticket
       [Sample.catch_all_1; Sample.catch_all_2]
     = Ok (Some (rule_actions Sample.catch_all_1))
  /\ applyRoutingRules Sample.billing_ticket
       [Sample.catch_all_2; Sample.catch_all_1]
     = Ok (Some (rule_actions Sample.catch_all_2))
  /\ rule_actions Sample.catch_all_1 <> rule_actions Sample.catch_all_2.
Proof.
  split; [apply perm_swap|].
  split; [vm_compute; reflexivity|].
  split; [vm_compute; reflexivity|].
  vm_compute. discriminate.
Qed.

(** C4, amended. The rule matched for a ticket is the same for every
    permutation of the rules that keeps the relative order of the rules of
    equal priority; in particular for every permutation when the
    priorities are pairwise distinct. And among the rules of equal
    priority the one listed first wins: in the list of the rules that have
    the priority of the matched rule, taken in the order given, every rule
    before the matched one evaluates to false. *)
Theorem rule_match_order_independence ticket rules :
  (forall rules',
      Permutation rules rules' ->
      (forall p,
          filter (has_priority p) rules = filter (has_priority p) rules')
      \/ NoDup (map effective_priority rules) ->
      applyRoutingRules ticket rules = applyRoutingRules ticket rules')
  /\ (forall m,
         applyRoutingRules ticket rules = Ok (Some m) ->
         exists rule earlier later,
           m = rule_actions rule
           /\ matchesRule ticket (Rule.conditions rule) = Ok true
           /\ filter (has_priority (effective_priority rule)) rules
              = (earlier ++ rule :: later)%list
           /\ Forall (fun r =>
                        matchesRule ticket (Rule.conditions r) = Ok false)
                     earlier).
Proof.
  split.
  - intros rules' P H. rewrite !applyRoutingRules_sorted. f_equal.
    apply sort_rules_order_independent.
    destruct H as [H | H]; [exact H|].
    now apply distinct_priorities_classes.
  - intros m H. rewrite applyRoutingRules_sorted in H.
    destruct (first_match_some _ _ H)
      as (before & rule & after & Hs & Hb & Hr & Hm).
    pose proof (@sort_stable _ by_priority_desc by_priority_trans
                  rule rules) as St.
    rewrite Hs, filter_app in St. cbn [filter] in St.
    rewrite (@ties_refl _ by_priority_desc by_priority_total) in St.
    rewrite !(filter_ext _ _ (ties_by_priority rule)) in St.
    exists rule, (filter (has_priority (effective_priority rule)) before),
      (filter (has_priority (effective_priority rule)) after).
    split; [exact Hm|]. split; [exact Hr|]. split; [now symmetry|].
    rewrite Forall_forall in *. intros r Hin. apply filter_In in Hin.
    now apply Hb.
Qed.

Lemma rule_match_order_independence_witness :
  applyRoutingRules Sample.billing_ticket
    [Sample.catch_all_1; Sample.billing_rule]
  = applyRoutingRules Sample.billing_ticket
      [Sample.billing_rule; Sample.catch_all_1].
Proof.
  apply (proj1 (@rule_match_order_independence Sample.billing_ticket
                  [Sample.catch_all_1; Sample.billing_rule])).
  - apply perm_swap.
  - right. repeat constructor; simpl; intuition discriminate.
Defined.

(** **** Which agents are selected *)

Lemma least_busy_spec agents a :
  findLeastBusyAgent agents = Some a ->
  In a agents /\ forall b, In b agents -> load a <= load b.
Proof.
  unfold findLeastBusyAgent. destruct agents as [|a0 agents]; [discriminate|].
  apply (@sort_by_key_least _ load).
Qed.

Lemma least_busy_nonempty agents :
  agents <> [] -> exists a, findLeastBusyAgent agents = Some a.
Proof.
  intros H. unfold findLeastBusyAgent.
  destruct agents as [|a0 agents]; [congruence|].
  now apply (@sort_by_key_nonempty _ load).
Qed.

Lemma hd_filter_find {A} (p : A -> bool) l :
  hd_error (filter p l) = find p l.
Proof.
  induction l as [|x l IH]; simpl; [reflexivity|].
  destruct (p x); [reflexivity | exact IH].
Qed.

Lemma find_ext_in {A} (p q : A -> bool) l :
  (forall x, In x l -> p x = q x) -> find p l = find q l.
Proof.
  induction l as [|x l IH]; intros H; simpl; [reflexivity|].
  rewrite (H x) by now left.
  destruct (q x); [reflexivity|]. apply IH. intros y Hy. apply H. now right.
Qed.

Lemma Qeq_bool_ties a b :
  Qle_bool (a - b) 0 && Qle_bool (b - a) 0 = Qeq_bool b a.
Proof.
  apply eq_true_iff_eq.
  rewrite andb_true_iff, !Qle_bool_iff, Qeq_bool_iff. split.
  - intros [H1 H2]. lra.
  - intros H. split; lra.
Qed.

Lemma ties_by_load a b :
  ties (fun x y : Agent.t => Fin (load x - load y)) a b
  = Qeq_bool (load b) (load a).
Proof. unfold ties, precedes, cmp_nonpos. apply Qeq_bool_ties. Qed.

Lemma least_busy_ties agents a :
  findLeastBusyAgent agents = Some a ->
  find (fun b => Qeq_bool (load b) (load a)) agents = Some a.
Proof.
  unfold findLeastBusyAgent. destruct agents as [|a0 agents]; [discriminate|].
  intros Ha.
  destruct (@sort_hd_least _ (by_key load) (@by_key_total _ load)
              (@by_key_trans _ load) a (a0 :: agents) Ha) as (_ & _ & Hf).
  rewrite hd_filter_find in Hf. rewrite <- Hf.
  apply find_ext_in. intros x _. symmetry. apply ties_by_load.
Qed.

Lemma filter_none {A} (p : A -> bool) l :
  (forall x, In x l -> p x = false) -> filter p l = [].
Proof.
  induction l as [|x l IH]; intros H; cbn; [reflexivity|].
  rewrite (H x) by now left. apply IH. intros y Hy. apply H. now right.
Qed.

Lemma filter_map_comm {A} (p : A -> bool) (g : A -> A) l :
  (forall a, p (g a) = p a) -> filter p (map g l) = map g (filter p l).
Proof.
  intros H. induction l as [|x l IH]; cbn [map filter]; [reflexivity|].
  rewrite H, IH. now destruct (p x).
Qed.

Lemma existsb_map_comm {A} (p : A -> bool) (g : A -> A) l :
  (forall a, p (g a) = p a) -> existsb p (map g l) = existsb p l.
Proof.
  intros H. induction l as [|x l IH]; cbn [map existsb]; [reflexivity|].
  now rewrite H, IH.
Qed.

Lemma sort_insert_map {A} (cmp : A -> A -> number) (g : A -> A) x l :
  (forall a b, cmp (g a) (g b) = cmp a b) ->
  sort_insert cmp (g x) (map g l) = map g (sort_insert cmp x l).
Proof.
  intros H. induction l as [|y l IH]; cbn [map sort_insert]; [reflexivity|].
  rewrite H. destruct (cmp_nonpos (cmp x y)); [reflexivity|].
  cbn [map]. now rewrite IH.
Qed.

Lemma sort_map {A} (cmp : A -> A -> number) (g : A -> A) l :
  (forall a b, cmp (g a) (g b) = cmp a b) ->
  sort cmp (map g l) = map g (sort cmp l).
Proof.
  intros H. induction l as [|x l IH]; cbn [map sort]; [reflexivity|].
  rewrite IH. now apply sort_insert_map.
Qed.

(** **** The active flag is not read *)

Section ActiveFlag.
Variable flag : Agent.t -> bool.

Local Abbreviation reflag := (with_active flag).

Lemma least_busy_reflag agents :
  findLeastBusyAgent (map reflag agents)
  = option_map reflag (findLeastBusyAgent agents).
Proof.
  unfold findLeastBusyAgent. destruct agents as [|a agents]; [reflexivity|].
  change (reflag a :: map reflag agents) with (map reflag (a :: agents)).
  rewrite sort_map by reflexivity.
  now destruct (sort _ (a :: agents)).
Qed.

Lemma senior_agent_reflag agents teamId :
  findSeniorAgent (map reflag agents) teamId
  = bind (findSeniorAgent agents teamId)
         (fun senior => Ok (option_map reflag senior)).
Proof.
  rewrite !senior_agent_spec.
  rewrite existsb_map_comm by reflexivity.
  destruct (existsb has_memberships agents); [reflexivity|].
  rewrite filter_map_comm by reflexivity. cbn [bind].
  now rewrite least_busy_reflag.
Qed.

Lemma best_agent_reflag teamId agents ticket :
  findBestAgentInTeam teamId (map reflag agents) ticket
  = findBestAgentInTeam teamId agents ticket.
Proof.
  unfold findBestAgentInTeam. destruct agents as [|a0 agents]; [reflexivity|].
  change (reflag a0 :: map reflag agents) with (map reflag (a0 :: agents)).
  rewrite filter_map_comm by reflexivity.
  destruct (filter (in_team teamId) (a0 :: agents)) as [|b bs] eqn:F;
    [reflexivity|].
  assert (Hb : has_memberships b = true).
  { apply (member_has_memberships teamId).
    assert (Hin : In b (filter (in_team teamId) (a0 :: agents)))
      by (rewrite F; now left).
    now apply filter_In in Hin. }
  cbn [map map_m].
  assert (E : score_agent teamId ticket (reflag b)
              = bind (score_agent teamId ticket b) (fun _ => Throw
                        (ReferenceError "tm is not defined"))).
  { unfold score_agent, has_memberships in *. cbn.
    destruct (Agent.team_members b); [|discriminate].
    destruct (Agent.skills b), (Ticket.category ticket) as [c|];
      cbn [bind]; try reflexivity.
    now destruct (String.eqb c ""). }
  rewrite E.
  destruct (score_agent_throws teamId ticket b Hb) as [-> | ->]; reflexivity.
Qed.

Lemma route_reflag ticket agents teams rules :
  route ticket (map reflag agents) teams rules
  = route ticket agents teams rules.
Proof.
  unfold route, route_steps_1_to_3.
  destruct (applyRoutingRules ticket rules) as [m|e]; cbn [bind];
    [|reflexivity].
  destruct (route_by_category ticket teams (apply_rule_match m initial))
    as [r2|e]; cbn [bind]; [|reflexivity].
  assert (E3 : assign_best_agent ticket (map reflag agents) r2
               = assign_best_agent ticket agents r2).
  { unfold assign_best_agent.
    destruct (Routing.assignToTeam r2) as [teamId|]; [|reflexivity].
    destruct (truthy_str (Some teamId) && _); [|reflexivity].
    now rewrite best_agent_reflag. }
  rewrite E3.
  destruct (assign_best_agent ticket agents r2) as [r3|e]; cbn [bind];
    [|reflexivity].
  unfold route_steps_4_to_6, handle_escalation.
  destruct (shouldEscalate ticket).
  - rewrite senior_agent_reflag.
    destruct (findSeniorAgent agents _) as [[s|]|e]; cbn [bind option_map];
      try reflexivity;
      unfold load_balance; rewrite least_busy_reflag;
      now destruct (findLeastBusyAgent agents).
  - cbn [bind]. unfold load_balance. rewrite least_busy_reflag.
    now destruct (findLeastBusyAgent agents).
Qed.
End ActiveFlag.

(** **** Who can be named by a decision *)

Lemma is_manager_role a :
  is_manager a = true <-> Agent.role a = Some "manager".
Proof.
  unfold is_manager, is_str. destruct (Agent.role a) as [r|].
  - rewrite String.eqb_eq. split; congruence.
  - split; discriminate.
Qed.

Lemma senior_agent_given agents teamId s :
  findSeniorAgent agents teamId = Ok (Some s) ->
  existsb has_memberships agents = false
  /\ In s agents /\ Agent.role s = Some "manager"
  /\ forall m,
       In m agents -> Agent.role m = Some "manager" -> load s <= load m.
Proof.
  rewrite senior_agent_spec.
  destruct (existsb has_memberships agents); [discriminate|].
  intros [= H]. split; [reflexivity|].
  destruct (least_busy_spec _ H) as [Hin Hle].
  apply filter_In in Hin. destruct Hin as [Hin Hm].
  split; [assumption|]. split; [now apply is_manager_role|].
  intros m Hm1 Hm2. apply Hle. apply filter_In.
  split; [assumption | now apply is_manager_role].
Qed.


(** When neither the rules nor the teams give a team or a user and the
    ticket does not escalate, step 5 assigns the least busy agent. *)
Lemma load_balancing_applies ticket agents rules m :
  shouldEscalate ticket = false ->
  applyRoutingRules ticket rules = Ok m ->
  truthy_str (rule_user m) = false ->
  truthy_str (rule_team m) = false ->
  exists d,
    route ticket agents [] rules = Ok d
    /\ Routing.assignToUser d
       = match findLeastBusyAgent agents with
         | Some a => Some (Agent.id a)
         | None => rule_user m
         end.
Proof.
  intros E Hm Hu Ht. unfold route, route_steps_1_to_3. rewrite Hm.
  cbn [bind].
  assert (U1 : Routing.assignToUser (apply_rule_match m initial)
               = rule_user m) by now destruct m.
  assert (T1 : Routing.assignToTeam (apply_rule_match m initial)
               = rule_team m) by now destruct m.
  assert (route_by_category ticket [] (apply_rule_match m initial)
          = Ok (apply_rule_match m initial)) as ->.
  { unfold route_by_category. destruct (Ticket.category ticket); [|reflexivity].
    now destruct (negb _ && _). }
  cbn [bind].
  assert (assign_best_agent ticket agents (apply_rule_match m initial)
          = Ok (apply_rule_match m initial)) as ->.
  { unfold assign_best_agent.
    destruct (Routing.assignToTeam _) as [t|] eqn:T; [|reflexivity].
    rewrite <- T1 in Ht. now rewrite Ht. }
  cbn [bind]. unfold route_steps_4_to_6, handle_escalation. rewrite E.
  cbn [bind]. eexists. split; [reflexivity|].
  cbn [Routing.with_confidence Routing.assignToUser].
  unfold load_balance. rewrite U1, T1, Hu, Ht. cbn [negb andb].
  destruct (findLeastBusyAgent agents); [reflexivity | exact U1].
Qed.

(** An inactive agent is the least busy one and gets the ticket. *)
Lemma inactive_agent_selected :
  Agent.is_active Sample.inactive = false
  /\ findLeastBusyAgent [Sample.A1; Sample.inactive] = Some Sample.inactive
  /\ exists d,
      route Sample.billing_ticket [Sample.A1; Sample.inactive] [] [] = Ok d
      /\ Routing.assignToUser d = Some (Agent.id Sample.inactive).
Proof.
  split; [reflexivity|].
  split; [vm_compute; reflexivity|].
  eexists. split; vm_compute; reflexivity.
Qed.

(** C5, amended. The router does not read the active flag. The
    load-balancing fallback picks among all the agents passed to [route],
    active or not, an agent of the lowest load/capacity ratio, the first
    of the list among those of that ratio; when neither a rule nor a team
    gives an assignment and the ticket does not escalate, that agent is
    the user of the decision. What [route] returns or throws is the same
    whatever the active flags of the agents are. Only active agents are
    picked when only active agents are passed. *)
Theorem selection_ignores_active_flag agents :
  (forall a,
      findLeastBusyAgent agents = Some a ->
      In a agents
      /\ (forall b, In b agents -> load a <= load b)
      /\ find (fun b => Qeq_bool (load b) (load a)) agents = Some a)
  /\ (forall ticket rules m,
        shouldEscalate ticket = false ->
        applyRoutingRules ticket rules = Ok m ->
        truthy_str (rule_user m) = false ->
        truthy_str (rule_team m) = false ->
        exists d,
          route ticket agents [] rules = Ok d
          /\ Routing.assignToUser d
             = match findLeastBusyAgent agents with
               | Some a => Some (Agent.id a)
               | None => rule_user m
               end)
  /\ (forall flag ticket teams rules,
        route ticket (map (with_active flag) agents) teams rules
        = route ticket agents teams rules)
  /\ (Forall (fun a => Agent.is_active a = true) agents ->
      forall a,
        findLeastBusyAgent agents = Some a -> Agent.is_active a = true).
Proof.
  split; [|split; [|split]].
  - intros a H. destruct (least_busy_spec _ H) as [Hin Hle].
    repeat split; try assumption. now apply least_busy_ties.
  - intros ticket rules m. apply load_balancing_applies.
  - intros flag ticket teams rules. apply route_reflag.
  - intros Hact a H. rewrite Forall_forall in Hact.
    now apply Hact, (least_busy_spec _ H).
Qed.

Lemma selection_ignores_active_flag_witness :
  route Sample.billing_ticket
        (map (with_active (fun _ => true)) [Sample.A1; Sample.inactive])
        [] []
  = route Sample.billing_ticket [Sample.A1; Sample.inactive] [] []
  /\ findLeastBusyAgent [Sample.freelancer; Sample.duty_manager]
     = Some Sample.freelancer.
Proof.
  destruct (@selection_ignores_active_flag [Sample.A1; Sample.inactive])
    as (_ & _ & H & _).
  split; [apply H | vm_compute; reflexivity].
Defined.

(** **** Escalation to a senior agent *)

(** C6. [findSeniorAgent] never returns a team lead. Its filter for
    team leads throws on the first agent that comes with an array of
    memberships (the callback of line 270 has lost its arrow), so with a
    team lead among the agents the escalation throws instead of
    reassigning the ticket. It returns only when no agent has memberships,
    and then the least busy agent of role 'manager', if there is one. *)
Theorem senior_agent_is_never_a_lead agents teamId :
  (existsb has_memberships agents = true ->
   findSeniorAgent agents teamId
   = Throw (ReferenceError "tm is not defined"))
  /\ (forall s,
         findSeniorAgent agents teamId = Ok (Some s) ->
         existsb has_memberships agents = false
         /\ In s agents /\ Agent.role s = Some "manager"
         /\ forall m,
              In m agents -> Agent.role m = Some "manager" ->
              load s <= load m)
  /\ findSeniorAgent [Sample.A1; Sample.lead] (Some "T1")
     = Throw (ReferenceError "tm is not defined")
  /\ route Sample.fraud_ticket [Sample.A1; Sample.lead] [] []
     = Throw (ReferenceError "tm is not defined").
Proof.
  split; [|split; [|split]].
  - intros M. now rewrite senior_agent_spec, M.
  - intros s. apply senior_agent_given.
  - reflexivity.
  - reflexivity.
Qed.

(** **** Further properties of the routing engine *)

(** X3. [route] returns a decision whenever the conditions of every rule
    can be evaluated on the ticket, no team has a skill, no agent belongs
    to a team, and, if the ticket escalates, no agent comes with an array
    of memberships: then none of the callbacks that throw is reached. The
    category of the ticket plays no part. *)
Theorem route_returns ticket agents teams rules :
  rules_evaluate ticket rules ->
  existsb skilled teams = false ->
  (forall a teamId, In a agents -> in_team teamId a = false) ->
  (shouldEscalate ticket = true -> existsb has_memberships agents = false) ->
  exists d, route ticket agents teams rules = Ok d.
Proof.
  intros Hr Ht Ha He. unfold route, route_steps_1_to_3.
  rewrite applyRoutingRules_sorted.
  destruct (first_match_returns (ticket := ticket)
              (rules := sort by_priority_desc rules)) as [m ->].
  { unfold rules_evaluate in *. rewrite Forall_forall in *.
    intros r Hin. apply Hr. now apply in_sort in Hin. }
  cbn [bind]. set (r1 := apply_rule_match m initial).
  assert (exists r2, route_by_category ticket teams r1 = Ok r2) as [r2 ->].
  { unfold route_by_category.
    destruct (Ticket.category ticket) as [c|]; [|now eexists].
    destruct (negb _ && _); [|now eexists].
    rewrite team_by_category_spec, Ht. cbn [bind].
    destruct (hd_error teams); now eexists. }
  cbn [bind].
  assert (assign_best_agent ticket agents r2 = Ok r2) as ->.
  { unfold assign_best_agent.
    destruct (Routing.assignToTeam r2) as [teamId|]; [|reflexivity].
    destruct (truthy_str (Some teamId) && _); [|reflexivity].
    pose proof (best_agent_spec teamId agents ticket) as B.
    rewrite (@filter_none _ (in_team teamId)) in B
      by (intros a Hin; now apply Ha).
    now rewrite B. }
  cbn [bind]. unfold route_steps_4_to_6, handle_escalation.
  destruct (shouldEscalate ticket); [|cbn [bind]; now eexists].
  rewrite senior_agent_spec, (He eq_refl). cbn [bind].
  destruct (findLeastBusyAgent _); cbn [bind]; now eexists.
Qed.

Lemma route_returns_witness :
  exists d,
    route Sample.fraud_ticket [Sample.freelancer; Sample.duty_manager]
          [Sample.T0] [Sample.catch_all_1; Sample.billing_rule] = Ok d.
Proof.
  apply (@route_returns Sample.fraud_ticket
           [Sample.freelancer; Sample.duty_manager]
           [Sample.T0] [Sample.catch_all_1; Sample.billing_rule]).
  - repeat constructor; eexists; vm_compute; reflexivity.
  - reflexivity.
  - intros a teamId [<- | [<- | []]]; reflexivity.
  - reflexivity.
Defined.


End RouterFacts.

(** *** The classification client *)

Module ClassifierFacts.
Import Classifier Spec.

(** The fallback of the [catch] block says why it is there. *)
Lemma fallback_reasoning_not_empty :
  exists c,
    classify Sample.cfg Sample.clock (Fails Sample.connection_reset) = Ok c
    /\ reasoning c = VStr "Classification failed"
    /\ reasoning c <> VStr "".
Proof.
  eexists. split; [reflexivity|]. split; [reflexivity | discriminate].
Qed.

(** C3, amended. [classify] never raises: an error thrown by the request,
    by [JSON.parse] or by the normalization is caught and turned into the
    fallback result: category 'general', priority 'medium', sentiment
    'neutral' with score 0, the three confidences and the overall
    confidence 0, reasoning 'Classification failed', and a processing time
    equal to the clock reading in the handler minus the start time. *)
Theorem classify_never_raises cfg now service :
  exists c,
    classify cfg now service = Ok c
    /\ forall t,
        caught_at cfg now service = Some t ->
        category c = "general"
        /\ priority c = "medium"
        /\ Sentiment.label (sentiment c) = "neutral"
        /\ Sentiment.score (sentiment c) = Fin 0
        /\ Confidence.category (confidence c) = Fin 0
        /\ Confidence.priority (confidence c) = Fin 0
        /\ Confidence.sentiment (confidence c) = Fin 0
        /\ overallConfidence c = Fin 0
        /\ reasoning c = VStr "Classification failed"
        /\ processingTimeMs c = (t - now 0%nat)%Z.
Proof.
  unfold classify, caught_at. destruct service as [e | result]; simpl.
  - eexists. split; [reflexivity|]. intros t [= <-]. now repeat split.
  - destruct (normalize cfg (now 1%nat - now 0%nat) result) as [c|e]; simpl.
    + exists c. split; [reflexivity | discriminate].
    + eexists. split; [reflexivity|]. intros t [= <-]. now repeat split.
Qed.

(** C2 at the failing input: the service answers with a word where a
    confidence is expected; [Math.min(1, "high")] is NaN and the result
    carries NaN as category confidence and as overall confidence. *)
Theorem worded_confidence_escapes_clamp cfg now :
  exists c,
    classify cfg now Sample.worded_confidence = Ok c
    /\ Confidence.category (confidence c) = NaN
    /\ overallConfidence c = NaN
    /\ ~ num_between 0 1 (Confidence.category (confidence c))
    /\ ~ num_between 0 1 (overallConfidence c).
Proof.
  eexists. split; [reflexivity|]. simpl. tauto.
Qed.

(** **** The overall confidence *)

Lemma within_zero p q : p == q -> within_tolerance 0 (Fin p) (Fin q).
Proof.
  intros E. unfold within_tolerance.
  setoid_replace (p - q) with 0 by (rewrite E; ring). discriminate.
Qed.

Lemma mean_of_three p q r :
  within_tolerance 0
    (num_div (num_add (num_add (Fin p) (Fin q)) (Fin r)) (Fin 3))
    (arithmetic_mean [Fin p; Fin q; Fin r]).
Proof.
  change (within_tolerance 0 (Fin ((p + q + r) / 3))
            (Fin ((0 + p + q + r) / 3))).
  apply within_zero. field.
Qed.

Ltac step_bind H :=
  match type of H with
  | bind ?r _ = Ok _ =>
      let x := fresh "x" in
      destruct r as [x|] eqn:?; simpl in H; [|discriminate H]
  end.

Lemma normalize_overall cfg t result c :
  normalize cfg t result = Ok c ->
  overallConfidence c
  = num_div (num_add (num_add (Confidence.category (confidence c))
                              (Confidence.priority (confidence c)))
                     (Confidence.sentiment (confidence c)))
            (Fin 3).
Proof.
  unfold normalize. intros H. repeat step_bind H. now injection H as <-.
Qed.

(** C9. The overall confidence that [classify] returns is the mean of
    the three confidences whenever these are numbers: exactly so in the
    arithmetic of the model, on the normalized and on the fallback path.
    It fails for a reply whose category confidence is a word: the clamp
    lets [NaN] through, the three confidences sum to [NaN], and the
    overall confidence is [NaN], which is within no tolerance of the
    mean, or of any number. *)
Theorem overall_confidence_mean_or_nan cfg now :
  (forall service c qc qp qs,
      classify cfg now service = Ok c ->
      Confidence.category (confidence c) = Fin qc ->
      Confidence.priority (confidence c) = Fin qp ->
      Confidence.sentiment (confidence c) = Fin qs ->
      within_tolerance 0 (overallConfidence c)
        (arithmetic_mean [Fin qc; Fin qp; Fin qs]))
  /\ exists c,
      classify cfg now Sample.worded_confidence = Ok c
      /\ Confidence.category (confidence c) = NaN
      /\ overallConfidence c = NaN
      /\ forall eps,
          ~ within_tolerance eps (overallConfidence c)
              (arithmetic_mean [ Confidence.category (confidence c);
                                 Confidence.priority (confidence c);
                                 Confidence.sentiment (confidence c) ]).
Proof.
  split.
  - intros service c qc qp qs H Hc Hp Hs.
    unfold classify in H. destruct service as [e | result]; simpl in H.
    + injection H as <-. simpl in *.
      injection Hc as <-. injection Hp as <-. injection Hs as <-.
      vm_compute. discriminate.
    + destruct (normalize cfg (now 1%nat - now 0%nat) result) as [c'|e] eqn:N;
        simpl in H; injection H as <-.
      * rewrite (normalize_overall _ _ _ N), Hc, Hp, Hs.
        apply mean_of_three.
      * simpl in *.
        injection Hc as <-. injection Hp as <-. injection Hs as <-.
        vm_compute. discriminate.
  - eexists. split; [reflexivity|]. simpl. repeat split. intros eps H. exact H.
Qed.

(** **** Domains and ranges of a result *)

Lemma arr_includes_In domain s : arr_includes domain s = true -> In s domain.
Proof.
  unfold arr_includes. rewrite existsb_exists. intros (x & Hin & H).
  apply String.eqb_eq in H. now subst.
Qed.

Lemma in_domain_or_In domain v fallback :
  In fallback domain -> In (in_domain_or domain v fallback) domain.
Proof.
  intros H. destruct v; simpl; try exact H.
  destruct (arr_includes domain s) eqn:E; [now apply arr_includes_In | exact H].
Qed.

Lemma get_get_opt o k v : get o k = Ok v -> get_opt o k = v.
Proof. destruct o; simpl; intros [= <-]; reflexivity. Qed.

(** What [normalize] puts into the fields of its result. *)
Lemma normalize_fields cfg t result c :
  normalize cfg t result = Ok c ->
  exists v_category v_priority,
    get result "category" = Ok v_category
    /\ get result "priority" = Ok v_priority
    /\ category c = in_domain_or CATEGORIES v_category "general"
    /\ priority c = in_domain_or PRIORITIES v_priority "medium"
    /\ Sentiment.label (sentiment c)
       = in_domain_or SENTIMENTS
           (get_opt (get_opt result "sentiment") "label") "neutral"
    /\ clamp (-1) (get_opt (get_opt result "sentiment") "score") 0
       = Ok (Sentiment.score (sentiment c))
    /\ clamp 0 (get_opt (get_opt result "confidence") "category") 0.5
       = Ok (Confidence.category (confidence c))
    /\ clamp 0 (get_opt (get_opt result "confidence") "priority") 0.5
       = Ok (Confidence.priority (confidence c))
    /\ clamp 0 (get_opt (get_opt result "confidence") "sentiment") 0.5
       = Ok (Confidence.sentiment (confidence c)).
Proof.
  unfold normalize. intros H. repeat step_bind H. injection H as <-. simpl.
  repeat match goal with
         | E : get result _ = Ok _ |- _ =>
             pose proof (get_get_opt _ _ E) as ->; revert E
         end.
  intros. do 2 eexists. repeat split; eassumption.
Qed.

(** X1. Every result of [classify] has its three labels in their domains; a
    category, priority or sentiment label of the answer that is not in its
    domain is replaced by 'general', 'medium' or 'neutral'. *)
Theorem classify_labels_in_domain cfg now service :
  exists c,
    classify cfg now service = Ok c
    /\ In (category c) CATEGORIES
    /\ In (priority c) PRIORITIES
    /\ In (Sentiment.label (sentiment c)) SENTIMENTS
    /\ forall result v,
        service = Parsed result ->
        (get result "category" = Ok v ->
         (forall s, v = VStr s -> ~ In s CATEGORIES) ->
         category c = "general")
        /\ (get result "priority" = Ok v ->
            (forall s, v = VStr s -> ~ In s PRIORITIES) ->
            priority c = "medium")
        /\ (get_opt (get_opt result "sentiment") "label" = v ->
            (forall s, v = VStr s -> ~ In s SENTIMENTS) ->
            Sentiment.label (sentiment c) = "neutral").
Proof.
  assert (D : forall domain v fallback,
             (forall s, v = VStr s -> ~ In s domain) ->
             in_domain_or domain v fallback = fallback).
  { intros domain v fallback H. destruct v; try reflexivity. simpl.
    destruct (arr_includes domain s) eqn:E; [|reflexivity].
    apply arr_includes_In in E. now destruct (H s eq_refl). }
  unfold classify. destruct service as [e | result]; cbn [try_catch].
  - eexists. split; [reflexivity|]. simpl. intuition discriminate.
  - destruct (normalize cfg (now 1%nat - now 0%nat) result) as [c|e] eqn:N;
      cbn [try_catch].
    + exists c. split; [reflexivity|].
      destruct (normalize_fields _ _ _ N)
        as (vc & vp & Hc & Hp & -> & -> & -> & _).
      split; [apply in_domain_or_In; simpl; tauto|].
      split; [apply in_domain_or_In; simpl; tauto|].
      split; [apply in_domain_or_In; simpl; tauto|].
      intros result' v [= <-]. repeat split.
      * intros Hv. rewrite Hc in Hv. injection Hv as ->. apply D.
      * intros Hv. rewrite Hp in Hv. injection Hv as ->. apply D.
      * intros <-. apply D.
    + eexists. split; [reflexivity|]. simpl. intuition.
Qed.

Lemma Qle_bool_false a b : Qle_bool a b = false -> b < a.
Proof.
  intros H. destruct (Qlt_le_dec b a) as [Hlt | Hle]; [exact Hlt|].
  apply Qle_bool_iff in Hle. congruence.
Qed.

Ltac qle_cases :=
  repeat match goal with
         | |- context [Qle_bool ?a ?b] =>
             let E := fresh "E" in
             destruct (Qle_bool a b) eqn:E;
             [apply Qle_bool_iff in E | apply Qle_bool_false in E];
             simpl
         end.

Lemma clamp_numeric lo v dflt :
  lo <= 1 -> numeric_or_absent v ->
  exists n, clamp lo v dflt = Ok n /\ num_between lo 1 n.
Proof.
  intros Hlo Hv. unfold clamp.
  assert (exists m, to_number (js_or v (VNum (Fin dflt))) = Ok m /\ m <> NaN)
    as (m & -> & Hm).
  { unfold js_or.
    destruct v as [| |[|]|[| |q|]| | |]; simpl in *; try contradiction;
      try (eexists; split; [reflexivity | discriminate]).
    destruct (Qeq_bool q 0); simpl;
      eexists; (split; [reflexivity | discriminate]). }
  simpl. eexists. split; [reflexivity|].
  destruct m as [| |q|]; [congruence | | |]; unfold Math_min, Math_max;
    simpl; qle_cases; split; lra.
Qed.

(** X2. When the score and the three confidences of the answer are numbers,
    booleans or missing, the result has its score in [-1, 1] and its
    confidences, the overall confidence included, in [0, 1]. *)
Theorem numeric_answer_in_range cfg now result :
  numeric_or_absent (get_opt (get_opt result "sentiment") "score") ->
  numeric_or_absent (get_opt (get_opt result "confidence") "category") ->
  numeric_or_absent (get_opt (get_opt result "confidence") "priority") ->
  numeric_or_absent (get_opt (get_opt result "confidence") "sentiment") ->
  exists c,
    classify cfg now (Parsed result) = Ok c
    /\ num_between (-1) 1 (Sentiment.score (sentiment c))
    /\ num_between 0 1 (Confidence.category (confidence c))
    /\ num_between 0 1 (Confidence.priority (confidence c))
    /\ num_between 0 1 (Confidence.sentiment (confidence c))
    /\ num_between 0 1 (overallConfidence c).
Proof.
  intros Hs Hc Hp Hn. unfold classify. simpl.
  destruct (normalize cfg (now 1%nat - now 0%nat) result) as [c|e] eqn:N;
    simpl.
  - exists c. split; [reflexivity|].
    rewrite (normalize_overall _ _ _ N).
    destruct (normalize_fields _ _ _ N)
      as (_ & _ & _ & _ & _ & _ & _ & Es & Ec & Ep & En).
    destruct (@clamp_numeric (-1) _ 0 ltac:(lra) Hs) as (s & Es' & Rs).
    destruct (@clamp_numeric 0 _ 0.5 ltac:(lra) Hc) as (a & Ec' & Ra).
    destruct (@clamp_numeric 0 _ 0.5 ltac:(lra) Hp) as (b & Ep' & Rb).
    destruct (@clamp_numeric 0 _ 0.5 ltac:(lra) Hn) as (d & En' & Rd).
    rewrite Es' in Es. rewrite Ec' in Ec. rewrite Ep' in Ep.
    rewrite En' in En.
    injection Es as <-. injection Ec as <-. injection Ep as <-.
    injection En as <-.
    repeat split; try assumption; try apply Rs; try apply Ra;
      try apply Rb; try apply Rd.
    destruct a as [| |qa|], b as [| |qb|], d as [| |qd|];
      try contradiction.
    simpl in *. unfold Qdiv. change (/ 3) with (1 # 3). split; lra.
  - eexists. split; [reflexivity|]. simpl. repeat split; lra.
Qed.

Lemma numeric_answer_in_range_witness :
  exists c,
    classify Sample.cfg Sample.clock Sample.answer = Ok c
    /\ Confidence.sentiment (confidence c) = Fin 1
    /\ num_between 0 1 (overallConfidence c).
Proof.
  destruct (@numeric_answer_in_range Sample.cfg Sample.clock
              (VObj [("category", VStr "billing"); ("priority", VStr "high");
                     ("sentiment", VObj [("label", VStr "negative");
                                         ("score", VNum (Fin (-0.4)))]);
                     ("confidence", VObj [("category", VNum (Fin 0.9));
                                          ("priority", VNum (Fin 0.6));
                                          ("sentiment", VNum (Fin 1.5))]);
                     ("reasoning", VStr "charged twice")])
              I I I I) as (c & Hc & _ & _ & _ & _ & Ho).
  exists c. split; [exact Hc|]. split; [|exact Ho].
  vm_compute in Hc. now injection Hc as <-.
Defined.

End ClassifierFacts.

(** *** The queue worker *)

Module WorkerFacts.
Import Worker Spec.

Lemma keeps_ret {A} (a : A) : keeps_retry_queue (ret a).
Proof. intros st r st' [= _ <-]. now split. Qed.

Lemma keeps_lift {A} (r : result A) : keeps_retry_queue (lift r).
Proof. intros st r' st' [= _ <-]. now split. Qed.

Lemma keeps_modify f :
  (forall st, retry_queue (f st) = retry_queue st
              /\ processingCount (f st) = processingCount st) ->
  keeps_retry_queue (modify f).
Proof. intros H st r st' [= _ <-]. apply H. Qed.

Lemma keeps_await outcome f :
  (forall st, retry_queue (f st) = retry_queue st
              /\ processingCount (f st) = processingCount st) ->
  keeps_retry_queue (await outcome f).
Proof.
  intros H. destruct outcome; [apply keeps_lift | now apply keeps_modify].
Qed.

Lemma keeps_bind {A B} (m : M A) (k : A -> M B) :
  keeps_retry_queue m -> (forall a, keeps_retry_queue (k a)) ->
  keeps_retry_queue (bindM m k).
Proof.
  intros Hm Hk st r st' H. unfold bindM in H.
  destruct (m st) as [[a|e] st1] eqn:E.
  - destruct (Hm _ _ _ E) as [<- <-]. exact (Hk a _ _ _ H).
  - injection H as _ <-. exact (Hm _ _ _ E).
Qed.

(** The [try] block touches neither the retry queue nor the counter. *)
Lemma process_body_keeps env j : keeps_retry_queue (process_body env j).
Proof.
  unfold process_body.
  repeat (apply keeps_bind; [|intros ?]);
    try (apply keeps_modify; intros; now split);
    try (apply keeps_await; intros; now split);
    try apply keeps_lift.
  destruct (ENABLE_AUTO_ROUTING env);
    [apply keeps_await; intros; now split | apply keeps_ret].
Qed.

(** A retryable failure of the job while the retry queue is unreachable:
    the job is not re-enqueued and the error of the push reaches the
    loop. *)
Lemma retry_push_may_fail :
  exists e st1 st',
    process_body Sample.queue_down Sample.job
      (set_count (processingCount Sample.idle + 1) Sample.idle)
    = (Throw e, st1)
    /\ isRetryableError e = true
    /\ processJob Sample.queue_down Sample.job Sample.idle
       = (Throw Sample.connection_refused, st')
    /\ retry_queue st' = [].
Proof.
  do 3 eexists. split; [vm_compute; reflexivity|].
  split; [vm_compute; reflexivity|].
  split; [vm_compute; reflexivity | reflexivity].
Qed.

(** C8, amended. When processing a job raises an error, the failure is
    logged with the ticket id. If the error is retryable (its message
    contains, or its code is, one of ECONNRESET, ETIMEDOUT, ECONNREFUSED,
    RATE_LIMITED) the job is pushed onto the retry queue, once; when that
    push completes nothing is propagated to the loop, and when the push is
    itself rejected the job is not re-enqueued and the rejection
    propagates. Any other error is dropped after logging: nothing is
    re-enqueued and nothing propagates. The counter of jobs in progress is
    restored in every case. *)
Theorem failed_job_handling env j st e st1 :
  process_body env j (set_count (processingCount st + 1) st)
  = (Throw e, st1) ->
  exists outcome st',
    processJob env j st = (outcome, st')
    /\ In (Failed "Classification job failed" (ticketId j) (message e))
          (log st')
    /\ processingCount st' = processingCount st
    /\ match isRetryableError e, push_retry env with
       | true, None =>
           outcome = Ok tt /\ retry_queue st' = j :: retry_queue st
       | true, Some rejected =>
           outcome = Throw rejected /\ retry_queue st' = retry_queue st
       | false, _ =>
           outcome = Ok tt /\ retry_queue st' = retry_queue st
       end.
Proof.
  intros Hb.
  destruct (@process_body_keeps env j _ _ _ Hb) as [Hq Hc]. simpl in Hq, Hc.
  unfold processJob, bindM, modify, try_catch_finally. rewrite Hb.
  unfold process_failure, bindM, modify.
  destruct (isRetryableError e); [destruct (push_retry env) as [rejected|]|];
    simpl; do 2 eexists; (split; [reflexivity|]); simpl;
    (split; [now left|]); (split; [lia|]); split; congruence.
Qed.

Lemma failed_job_handling_witness :
  exists st',
    processJob Sample.store_timeout Sample.job Sample.idle = (Ok tt, st')
    /\ retry_queue st' = [Sample.job]
    /\ processingCount st' = 0%Z.
Proof.
  destruct (@failed_job_handling Sample.store_timeout Sample.job Sample.idle
              (mkError (Some "ETIMEDOUT") None)
              (snd (process_body Sample.store_timeout Sample.job
                      (set_count 1 Sample.idle)))
              ltac:(vm_compute; reflexivity))
    as (outcome & st' & Hp & _ & Hc & Hr).
  change (isRetryableError (mkError (Some "ETIMEDOUT") None)) with true in Hr.
  change (push_retry Sample.store_timeout) with (@None error) in Hr.
  destruct Hr as [-> Hr]. exists st'. now repeat split.
Defined.

End WorkerFacts.

(** *** More on the routing engine *)

Module RouterMore.
Import Router Spec Vocabulary RouterFacts.

(** **** Teams by category *)

(** X6. [findTeamByCategory] returns nothing only for an empty list of
    teams. When a team of the list has a skill it throws a ReferenceError:
    the callback that should compare the skills has lost its arrow
    (line 168). When no team has a skill it returns the first team of the
    list. The category plays no part in the outcome. *)
Theorem team_by_category category teams :
  (teams = [] -> findTeamByCategory category teams = Ok None)
  /\ (existsb skilled teams = true ->
      findTeamByCategory category teams
      = Throw (ReferenceError "skill is not defined"))
  /\ (forall first rest,
         teams = first :: rest -> existsb skilled teams = false ->
         findTeamByCategory category teams = Ok (Some first))
  /\ (forall category',
         findTeamByCategory category' teams
         = findTeamByCategory category teams).
Proof.
  rewrite team_by_category_spec. repeat split.
  - now intros ->.
  - now intros ->.
  - intros first rest -> H. now rewrite H.
  - intros category'. now rewrite team_by_category_spec.
Qed.

(** **** The choice among agents *)

(** X7. [findLeastBusyAgent] returns nothing only for an empty list of
    agents. Otherwise it returns an agent whose load ratio, the double the
    division of the two columns gives, no agent of the list undercuts, and
    of the agents with that double the one that comes first in the list. *)
Theorem least_busy_first_of_least agents :
  match agents with
  | [] => findLeastBusyAgent agents = None
  | _ =>
      exists a,
        findLeastBusyAgent agents = Some a
        /\ (forall b, In b agents -> load a <= load b)
        /\ find (fun b => Qeq_bool (load b) (load a)) agents = Some a
  end.
Proof.
  destruct agents as [|a0 agents]; [reflexivity|].
  destruct (@least_busy_nonempty (a0 :: agents)) as [a Ha]; [discriminate|].
  exists a. split; [exact Ha|].
  unfold findLeastBusyAgent in Ha.
  destruct (@sort_hd_least _ (by_key load) (@by_key_total _ load)
              (@by_key_trans _ load) a (a0 :: agents) Ha) as (_ & Hle & Hf).
  split.
  - intros b Hb. now apply (@precedes_by_key _ load), Hle.
  - rewrite hd_filter_find in Hf. rewrite <- Hf.
    apply find_ext_in. intros x _. symmetry. apply ties_by_load.
Qed.

(** X8. [findBestAgentInTeam] never returns an agent. It returns nothing
    when no agent of the list is a member of the team, and otherwise it
    throws a ReferenceError while it scores the first member: at line 207
    when that agent has skills and the ticket a category, and at line 220
    if not (both callbacks have lost their arrow). *)
Theorem best_agent_none_or_throws teamId agents ticket :
  findBestAgentInTeam teamId agents ticket
  = match filter (in_team teamId) agents with
    | [] => Ok None
    | member :: _ =>
        match Agent.skills member with
        | Some _ =>
            if truthy_str (Ticket.category ticket)
            then Throw (ReferenceError "skill is not defined")
            else Throw (ReferenceError "tm is not defined")
        | None => Throw (ReferenceError "tm is not defined")
        end
    end.
Proof.
  unfold findBestAgentInTeam. destruct agents as [|a0 agents]; [reflexivity|].
  destruct (filter (in_team teamId) (a0 :: agents)) as [|b bs] eqn:F;
    [reflexivity|].
  assert (Hb : has_memberships b = true).
  { apply (member_has_memberships teamId).
    assert (Hin : In b (filter (in_team teamId) (a0 :: agents)))
      by (rewrite F; now left).
    now apply filter_In in Hin. }
  cbn [map_m]. unfold score_agent at 1. unfold has_memberships in Hb.
  destruct (Agent.team_members b); [|discriminate].
  destruct (Agent.skills b), (Ticket.category ticket) as [c|];
    cbn [bind truthy_str]; try reflexivity.
  now destruct (String.eqb c "").
Qed.

(** **** Conditions *)

Lemma matches_entries_all ticket entries :
  matches_entries ticket entries = Ok true
  <-> Forall (fun kv => matches_condition ticket (fst kv) (snd kv) = Ok true)
             entries.
Proof.
  induction entries as [|[key value] entries IH]; cbn [matches_entries].
  - split; [constructor | reflexivity].
  - split.
    + destruct (matches_condition ticket key value) as [[|]|e] eqn:E;
        cbn [bind]; try discriminate.
      intros H. constructor; [exact E | now apply IH].
    + intros H. inversion H as [|? ? H1 H2]; subst. cbn [fst snd] in H1.
      rewrite H1. cbn [bind]. now apply IH.
Qed.

Lemma matches_entries_failed ticket entries :
  matches_entries ticket entries = Ok false ->
  exists kv,
    In kv entries /\ matches_condition ticket (fst kv) (snd kv) = Ok false.
Proof.
  induction entries as [|[key value] entries IH]; cbn [matches_entries];
    [discriminate|].
  destruct (matches_condition ticket key value) as [[|]|e] eqn:E;
    cbn [bind]; try discriminate.
  - intros H. destruct (IH H) as (kv & Hin & Hkv).
    exists kv. split; [now right | exact Hkv].
  - intros _. exists (key, value). split; [now left | exact E].
Qed.

(** X9. A rule matches exactly when each of its conditions holds of the
    ticket: [matchesRule] returns true on a condition object if and only
    if every entry evaluates to true, so a match does not depend on the
    order of the entries; and when it returns false one entry evaluates to
    false. *)
Theorem rule_matches_every_condition ticket entries :
  (matchesRule ticket (VObj entries) = Ok true
   <-> Forall (fun kv => matches_condition ticket (fst kv) (snd kv) = Ok true)
              entries)
  /\ (forall entries',
         Permutation entries entries' ->
         matchesRule ticket (VObj entries) = Ok true ->
         matchesRule ticket (VObj entries') = Ok true)
  /\ (matchesRule ticket (VObj entries) = Ok false ->
      exists kv,
        In kv entries
        /\ matches_condition ticket (fst kv) (snd kv) = Ok false).
Proof.
  unfold matchesRule. cbn [truthy negb object_entries].
  split; [apply matches_entries_all|]. split.
  - intros entries' P H. apply matches_entries_all.
    apply matches_entries_all in H.
    exact (Permutation_Forall P H).
  - apply matches_entries_failed.
Qed.

(** X10. A numeric column that is null compares as 0 in the conditions of a
    rule: with [x] the value of the column, or 0 when it is null, the
    condition [{ $gt: b }] holds iff [b < x], [{ $lt: b }] iff [x < b],
    [{ $gte: b }] iff [b <= x], and [{ $lte: b }] iff [x <= b]; none of
    them throws. *)
Theorem null_number_compares_as_zero ticket key column bound :
  Ticket.field ticket key = Ticket.of_number column ->
  let x := column_value column in
  let holds op := matches_condition ticket key (compares op bound) in
  (holds "$gt" = Ok true <-> bound < x)
  /\ (holds "$lt" = Ok true <-> x < bound)
  /\ (holds "$gte" = Ok true <-> bound <= x)
  /\ (holds "$lte" = Ok true <-> x <= bound)
  /\ (forall op, In op ["$gt"; "$lt"; "$gte"; "$lte"] ->
                 exists b, holds op = Ok b).
Proof.
  intros Hf x holds. subst x holds.
  unfold matches_condition, compares. rewrite Hf.
  assert (Hlt : forall a b, negb (Qle_bool a b) = true <-> b < a).
  { intros a b. rewrite negb_true_iff. split.
    - apply ClassifierFacts.Qle_bool_false.
    - intros H. apply not_true_is_false. rewrite Qle_bool_iff. lra. }
  destruct column as [x|]; cbn;
    repeat split;
    try (intros op [<- | [<- | [<- | [<- | []]]]]; cbn; eexists;
         reflexivity);
    try match goal with
        | |- context [Qle_bool ?a ?b] =>
            pose proof (Hlt a b); pose proof (Qle_bool_iff a b);
            destruct (Qle_bool a b); cbn in *
        end;
    intuition (try discriminate; try reflexivity; try lra).
  all: subst op; cbn;
    match goal with
    | |- context [Qle_bool ?a ?b] => destruct (Qle_bool a b)
    end; cbn; eexists; reflexivity.
Qed.

Lemma null_number_compares_as_zero_witness :
  matches_condition Sample.billing_ticket "sentiment_score"
                    (compares "$lt" (1 # 2)) = Ok true.
Proof.
  destruct (@null_number_compares_as_zero Sample.billing_ticket
              "sentiment_score" None (1 # 2) eq_refl) as (_ & H & _).
  apply H. reflexivity.
Defined.

(** X11. A condition on a column the ticket does not have: the operators
    [$gt], [$lt], [$gte] and [$lte] fail whatever the bound, [$ne] holds
    whatever its operand, and the comparison with a string, a number, a
    boolean or null fails. *)
Theorem missing_column_conditions ticket key :
  Ticket.field ticket key = VUndef ->
  (forall op bound, In op ["$gt"; "$lt"; "$gte"; "$lte"] ->
      matches_condition ticket key (compares op bound) = Ok false)
  /\ (forall v, matches_condition ticket key (VObj [("$ne", v)]) = Ok true)
  /\ (forall s, matches_condition ticket key (VStr s) = Ok false)
  /\ (forall n, matches_condition ticket key (VNum n) = Ok false)
  /\ (forall b, matches_condition ticket key (VBool b) = Ok false).
Proof.
  intros Hf. unfold matches_condition, compares. rewrite Hf.
  repeat split.
  - intros op bound [<- | [<- | [<- | [<- | []]]]]; reflexivity.
  - intros v. cbn. now destruct v.
Qed.

Lemma missing_column_conditions_witness :
  matches_condition Sample.billing_ticket "region" (compares "$lte" 3)
  = Ok false.
Proof.
  destruct (@missing_column_conditions Sample.billing_ticket "region"
              eq_refl) as (H & _).
  apply H. cbn. tauto.
Defined.

(** **** The steps of [route] *)

Lemma route_stages ticket agents teams rules d :
  route ticket agents teams rules = Ok d ->
  exists m r2 r4,
    applyRoutingRules ticket rules = Ok m
    /\ route_by_category ticket teams (apply_rule_match m initial) = Ok r2
    /\ assign_best_agent ticket agents r2 = Ok r2
    /\ handle_escalation ticket agents r2 = Ok r4
    /\ d = Routing.with_confidence
             (calculateRoutingConfidence (load_balance agents r4) ticket)
             (load_balance agents r4).
Proof.
  intros H. destruct (route_inv _ _ _ _ H) as (r3 & r4 & H3 & H4 & ->).
  unfold route_steps_1_to_3 in H3.
  destruct (applyRoutingRules ticket rules) as [m|e]; cbn [bind] in H3;
    [|discriminate].
  destruct (route_by_category ticket teams (apply_rule_match m initial))
    as [r2|e] eqn:H2; cbn [bind] in H3; [|discriminate].
  pose proof (assign_best_agent_inv _ _ _ H3) as ->.
  exists m, r2, r4. now repeat split.
Qed.

Lemma rule_match_fields m :
  Routing.assignToTeam (apply_rule_match m initial) = rule_team m
  /\ Routing.assignToUser (apply_rule_match m initial) = rule_user m
  /\ Routing.setPriority (apply_rule_match m initial) = rule_priority m
  /\ Routing.addTags (apply_rule_match m initial) = rule_tags m.
Proof. now destruct m. Qed.

(** Step 2 touches the team and the reason only. *)
Lemma route_by_category_frame ticket teams r r2 :
  route_by_category ticket teams r = Ok r2 ->
  Routing.assignToUser r2 = Routing.assignToUser r
  /\ Routing.setPriority r2 = Routing.setPriority r
  /\ Routing.addTags r2 = Routing.addTags r.
Proof.
  unfold route_by_category.
  destruct (Ticket.category ticket) as [c|]; [|now intros [= <-]].
  destruct (negb _ && _); [|now intros [= <-]].
  destruct (findTeamByCategory c teams) as [[team|]|e]; cbn [bind];
    try discriminate; now intros [= <-].
Qed.

(** X12. The team of a decision is settled by the first two steps and never
    changed afterwards. It is the team of the matched rule when that rule
    names one. Otherwise, for a ticket with a category, a decision is
    returned only when no team has a skill, and its team is then the first
    team of the list (the team of the rule, that is none, for an empty
    list). For a ticket without a category it stays what the rule left. *)
Theorem decision_team ticket agents teams rules d :
  route ticket agents teams rules = Ok d ->
  exists m,
    applyRoutingRules ticket rules = Ok m
    /\ (truthy_str (rule_team m) = true ->
        Routing.assignToTeam d = rule_team m)
    /\ (truthy_str (rule_team m) = false ->
        truthy_str (Ticket.category ticket) = true ->
        existsb skilled teams = false
        /\ Routing.assignToTeam d
           = match teams with
             | first :: _ => Some (Team.id first)
             | [] => rule_team m
             end)
    /\ (truthy_str (rule_team m) = false ->
        truthy_str (Ticket.category ticket) = false ->
        Routing.assignToTeam d = rule_team m).
Proof.
  intros H.
  destruct (route_stages _ _ _ _ H) as (m & r2 & r4 & Hm & H2 & _ & H4 & ->).
  exists m. split; [exact Hm|].
  cbn [Routing.with_confidence Routing.assignToTeam].
  destruct (load_balance_keeps agents r4) as (_ & _ & ->).
  destruct (handle_escalation_marks _ _ _ H4) as (_ & _ & ->).
  destruct (rule_match_fields m) as (Ht & _).
  unfold route_by_category in H2. rewrite Ht in H2.
  split; [|split].
  - intros T. rewrite T in H2. cbn [negb andb] in H2.
    destruct (Ticket.category ticket); injection H2 as <-; exact Ht.
  - intros T Hc. destruct (Ticket.category ticket) as [c|]; [|discriminate].
    rewrite T, Hc in H2. cbn [negb andb] in H2.
    rewrite team_by_category_spec in H2.
    destruct (existsb skilled teams); [discriminate|].
    split; [reflexivity|]. cbn [bind] in H2.
    destruct teams as [|first rest]; cbn [hd_error] in H2;
      injection H2 as <-; [exact Ht | reflexivity].
  - intros T Hc. destruct (Ticket.category ticket) as [c|];
      [|injection H2 as <-; exact Ht].
    rewrite Hc, andb_false_r in H2. injection H2 as <-. exact Ht.
Qed.

Lemma decision_team_witness :
  exists d,
    route Sample.billing_ticket [Sample.freelancer] [Sample.T0] [] = Ok d
    /\ Routing.assignToTeam d = Some (Team.id Sample.T0).
Proof.
  eexists. split; [vm_compute; reflexivity|].
  destruct (@decision_team Sample.billing_ticket [Sample.freelancer]
              [Sample.T0] [] _ ltac:(vm_compute; reflexivity))
    as (m & Hm & _ & Hc & _).
  injection Hm as <-. now apply Hc.
Defined.

(** X13. The priority and the tags of a decision: the priority is 'urgent'
    when the ticket escalates and the priority of the matched rule (none
    without a match) otherwise; the tags are the tags of the matched rule,
    followed by 'escalated' when the ticket escalates. No other step of
    [route] changes either. *)
Theorem decision_priority_and_tags ticket agents teams rules d :
  route ticket agents teams rules = Ok d ->
  exists m,
    applyRoutingRules ticket rules = Ok m
    /\ Routing.setPriority d
       = (if shouldEscalate ticket then Some "urgent" else rule_priority m)
    /\ Routing.addTags d
       = (rule_tags m
          ++ (if shouldEscalate ticket then ["escalated"] else []))%list.
Proof.
  intros H.
  destruct (route_stages _ _ _ _ H) as (m & r2 & r4 & Hm & H2 & _ & H4 & ->).
  exists m. split; [exact Hm|].
  cbn [Routing.with_confidence Routing.setPriority Routing.addTags].
  destruct (load_balance_keeps agents r4) as (-> & -> & _).
  destruct (handle_escalation_marks _ _ _ H4) as (-> & -> & _).
  destruct (route_by_category_frame _ _ _ H2) as (_ & -> & ->).
  destruct (rule_match_fields m) as (_ & _ & -> & ->). now split.
Qed.

(** The rule sets 'high', the escalation 'urgent'. *)
Lemma decision_priority_and_tags_witness :
  exists d,
    route Sample.fraud_ticket [Sample.freelancer; Sample.duty_manager]
          [Sample.T0] [Sample.vip_rule] = Ok d
    /\ Routing.setPriority d = Some "urgent"
    /\ Routing.addTags d = ["vip"; "escalated"].
Proof.
  eexists. split; [vm_compute; reflexivity|].
  destruct (@decision_priority_and_tags Sample.fraud_ticket
              [Sample.freelancer; Sample.duty_manager] [Sample.T0]
              [Sample.vip_rule] _ ltac:(vm_compute; reflexivity))
    as (m & Hm & Hp & Ht).
  vm_compute in Hm. injection Hm as <-. rewrite Hp, Ht.
  split; reflexivity.
Defined.

(** X14. The user of a decision for a ticket that does not escalate: the
    user of the matched rule when that rule names one. Otherwise, when the
    decision has a team, nobody: a decision is then returned only when no
    agent given is a member of the team, and load balancing is not tried.
    Otherwise, with no team, the least busy agent of all, and nobody when
    no agent is given. *)
Theorem decision_user_without_escalation ticket agents teams rules d :
  route ticket agents teams rules = Ok d ->
  shouldEscalate ticket = false ->
  exists m,
    applyRoutingRules ticket rules = Ok m
    /\ (truthy_str (rule_user m) = true ->
        Routing.assignToUser d = rule_user m)
    /\ (forall team,
           truthy_str (rule_user m) = false ->
           Routing.assignToTeam d = Some team -> team <> "" ->
           filter (in_team team) agents = []
           /\ Routing.assignToUser d = rule_user m)
    /\ (truthy_str (rule_user m) = false ->
        truthy_str (Routing.assignToTeam d) = false ->
        Routing.assignToUser d
        = match findLeastBusyAgent agents with
          | Some agent => Some (Agent.id agent)
          | None => rule_user m
          end).
Proof.
  intros H E.
  destruct (route_stages _ _ _ _ H) as (m & r2 & r4 & Hm & H2 & H3 & H4 & ->).
  exists m. split; [exact Hm|].
  unfold handle_escalation in H4. rewrite E in H4. injection H4 as <-.
  cbn [Routing.with_confidence Routing.assignToUser Routing.assignToTeam].
  destruct (load_balance_keeps agents r2) as (_ & _ & ->).
  destruct (route_by_category_frame _ _ _ H2) as (U2 & _).
  destruct (rule_match_fields m) as (_ & Um & _). rewrite Um in U2.
  clear H H2 Hm Um. split; [|split].
  - intros U. unfold load_balance. rewrite U2, U. cbn [negb andb]. exact U2.
  - intros team U T Hne. apply String.eqb_neq in Hne.
    assert (Tt : truthy_str (Some team) = true)
      by (cbn [truthy_str]; now rewrite Hne).
    split.
    + unfold assign_best_agent in H3. rewrite T in H3.
      rewrite U2, U, Tt in H3. cbn [negb andb] in H3.
      pose proof (RouterFacts.best_agent_spec team agents ticket) as B.
      destruct (filter (in_team team) agents); [reflexivity|].
      destruct B as [B | B]; rewrite B in H3; discriminate.
    + unfold load_balance. rewrite T, Tt. cbn [negb].
      rewrite andb_false_r. exact U2.
  - intros U T. unfold load_balance. rewrite U2, U, T. cbn [negb andb].
    destruct (findLeastBusyAgent agents); [reflexivity | exact U2].
Qed.

(** An agent is free, and the ticket stays without a user. *)
Lemma decision_user_without_escalation_witness :
  exists d,
    route Sample.billing_ticket [Sample.freelancer] [Sample.T0] [] = Ok d
    /\ Routing.assignToUser d = None.
Proof.
  eexists. split; [vm_compute; reflexivity|].
  destruct (@decision_user_without_escalation Sample.billing_ticket
              [Sample.freelancer] [Sample.T0] [] _
              ltac:(vm_compute; reflexivity) ltac:(vm_compute; reflexivity))
    as (m & Hm & _ & Ht & _).
  injection Hm as <-.
  destruct (Ht "T0") as [_ Hu];
    [reflexivity | reflexivity | discriminate | exact Hu].
Defined.

(** X5. The user of a decision for a ticket that escalates. A decision
    is returned only when no agent comes with an array of memberships.
    When an agent of role 'manager' is given, the user is the least busy
    of the managers (its id, when that is not the empty string), whatever
    the rule or the team had chosen. When no manager is given, the user
    is the one of the matched rule, if it names a user or the decision
    has a team, and the least busy agent of all otherwise. *)
Theorem decision_user_with_escalation ticket agents teams rules d :
  route ticket agents teams rules = Ok d ->
  shouldEscalate ticket = true ->
  existsb has_memberships agents = false
  /\ ((exists a, In a agents /\ Agent.role a = Some "manager") ->
      exists s,
        In s agents /\ Agent.role s = Some "manager"
        /\ (forall a,
               In a agents -> Agent.role a = Some "manager" ->
               load s <= load a)
        /\ (Agent.id s <> "" -> Routing.assignToUser d = Some (Agent.id s)))
  /\ ((forall a, In a agents -> Agent.role a <> Some "manager") ->
      exists m,
        applyRoutingRules ticket rules = Ok m
        /\ Routing.assignToUser d
           = if truthy_str (rule_user m)
                || truthy_str (Routing.assignToTeam d)
             then rule_user m
             else match findLeastBusyAgent agents with
                  | Some agent => Some (Agent.id agent)
                  | None => rule_user m
                  end).
Proof.
  intros H E.
  destruct (route_stages _ _ _ _ H) as (m & r2 & r4 & Hm & H2 & H3 & H4 & ->).
  cbn [Routing.with_confidence Routing.assignToUser Routing.assignToTeam].
  destruct (load_balance_keeps agents r4) as (_ & _ & ->).
  destruct (handle_escalation_marks _ _ _ H4) as (_ & _ & T4).
  destruct (route_by_category_frame _ _ _ H2) as (U2 & _).
  destruct (rule_match_fields m) as (_ & Um & _). rewrite Um in U2.
  unfold handle_escalation in H4. rewrite E, senior_agent_spec in H4.
  destruct (existsb has_memberships agents); [discriminate|].
  cbn [bind] in H4. split; [reflexivity|].
  destruct (findLeastBusyAgent (filter is_manager agents)) as [s|] eqn:L.
  - injection H4 as <-. split.
    + intros _. destruct (least_busy_spec _ L) as [Hin Hle].
      apply filter_In in Hin. destruct Hin as [Hin Hs].
      exists s. split; [assumption|].
      split; [now apply is_manager_role|]. split.
      * intros a Ha Hr. apply Hle, filter_In.
        split; [assumption | now apply is_manager_role].
      * intros Hne. apply String.eqb_neq in Hne. unfold load_balance.
        cbn [Routing.with_reason Routing.with_user Routing.assignToUser
             truthy_str].
        now rewrite Hne.
    + intros Hno. destruct (least_busy_spec _ L) as [Hin _].
      apply filter_In in Hin. destruct Hin as [Hin Hs].
      now destruct (Hno s Hin); apply is_manager_role.
  - injection H4 as <-. split.
    + intros (a & Ha & Hr).
      destruct (@least_busy_nonempty (filter is_manager agents)) as [s Hs].
      * intros F. assert (Hin : In a (filter is_manager agents)).
        { apply filter_In. split; [assumption | now apply is_manager_role]. }
        now rewrite F in Hin.
      * congruence.
    + intros _. exists m. split; [exact Hm|].
      cbn [Routing.assignToTeam Routing.with_tags Routing.with_priority]
        in T4 |- *.
      unfold load_balance.
      cbn [Routing.assignToUser Routing.assignToTeam Routing.with_tags
           Routing.with_priority].
      rewrite U2.
      destruct (truthy_str (rule_user m)); cbn [negb andb orb];
        [exact U2|].
      destruct (truthy_str (Routing.assignToTeam r2)); cbn [negb];
        [exact U2|].
      destruct (findLeastBusyAgent agents); [reflexivity | exact U2].
Qed.

(** The manager on duty gets the escalated ticket. *)
Lemma decision_user_with_escalation_witness :
  exists d,
    route Sample.fraud_ticket [Sample.freelancer; Sample.duty_manager]
          [Sample.T0] [] = Ok d
    /\ Routing.assignToUser d = Some (Agent.id Sample.duty_manager).
Proof.
  eexists. split; [vm_compute; reflexivity|].
  destruct (@decision_user_with_escalation Sample.fraud_ticket
              [Sample.freelancer; Sample.duty_manager] [Sample.T0] [] _
              ltac:(vm_compute; reflexivity) ltac:(vm_compute; reflexivity))
    as (_ & Hs & _).
  destruct Hs as (s & Hin & Hr & _ & Hu).
  - exists Sample.duty_manager. split; [simpl; tauto | reflexivity].
  - destruct Hin as [<- | [<- | []]]; [discriminate Hr|].
    apply Hu. discriminate.
Defined.

(** X15. With no agents and no teams [route] returns a decision whenever
    the conditions of the rules can be evaluated, whatever the ticket's
    category and also when the ticket escalates: the decision names the
    user and the team of the matched rule, and without a match it names
    nobody and has the empty reason. *)
Theorem no_agents_no_teams ticket rules :
  rules_evaluate ticket rules ->
  exists m d,
    applyRoutingRules ticket rules = Ok m
    /\ route ticket [] [] rules = Ok d
    /\ Routing.assignToUser d = rule_user m
    /\ Routing.assignToTeam d = rule_team m
    /\ (m = None -> Routing.reason d = "").
Proof.
  intros Hr.
  assert (exists m, applyRoutingRules ticket rules = Ok m) as [m Hm].
  { rewrite applyRoutingRules_sorted. apply first_match_returns.
    unfold rules_evaluate in *. rewrite Forall_forall in *.
    intros r Hin. apply Hr. now apply in_sort in Hin. }
  exists m. unfold route, route_steps_1_to_3. rewrite Hm. cbn [bind].
  destruct (rule_match_fields m) as (Tm & Um & _).
  assert (route_by_category ticket [] (apply_rule_match m initial)
          = Ok (apply_rule_match m initial)) as ->.
  { unfold route_by_category. destruct (Ticket.category ticket); [|reflexivity].
    now destruct (negb _ && _). }
  cbn [bind].
  assert (assign_best_agent ticket [] (apply_rule_match m initial)
          = Ok (apply_rule_match m initial)) as ->.
  { unfold assign_best_agent.
    destruct (Routing.assignToTeam _); [|reflexivity].
    now destruct (truthy_str _ && _). }
  cbn [bind]. unfold route_steps_4_to_6.
  assert (exists r4,
             handle_escalation ticket [] (apply_rule_match m initial) = Ok r4
             /\ Routing.assignToUser r4 = rule_user m
             /\ Routing.assignToTeam r4 = rule_team m
             /\ Routing.reason r4
                = Routing.reason (apply_rule_match m initial))
    as (r4 & -> & U4 & T4 & R4).
  { unfold handle_escalation. destruct (shouldEscalate ticket);
      cbn [findSeniorAgent bind]; eexists; now repeat split. }
  cbn [bind]. eexists. split; [reflexivity|]. split; [reflexivity|].
  cbn [Routing.with_confidence Routing.assignToUser Routing.assignToTeam
       Routing.reason].
  assert (load_balance [] r4 = r4) as ->.
  { unfold load_balance. cbn [findLeastBusyAgent].
    now destruct (negb _ && negb _). }
  split; [exact U4|]. split; [exact T4|]. intros ->. exact R4.
Qed.

Lemma no_agents_no_teams_witness :
  exists d,
    route Sample.fraud_ticket [] [] [Sample.billing_rule] = Ok d
    /\ Routing.assignToUser d = None /\ Routing.assignToTeam d = None.
Proof.
  destruct (@no_agents_no_teams Sample.fraud_ticket [Sample.billing_rule])
    as (m & d & Hm & Hd & Hu & Ht & _).
  - repeat constructor. eexists. vm_compute. reflexivity.
  - exists d. split; [exact Hd|].
    vm_compute in Hm. injection Hm as <-. now split.
Defined.

(** **** Escalation *)

Lemma prefix_sep k : forall a b,
  spaceless k = true ->
  String.prefix k (a ++ String " " b) = true -> String.prefix k a = true.
Proof.
  unfold spaceless.
  induction k as [|c k IH]; intros a b Hk H; [now destruct a|].
  cbn [list_ascii_of_string forallb] in Hk. apply andb_true_iff in Hk.
  destruct Hk as [Hc Hk]. destruct a as [|d a]; cbn in *.
  - destruct (ascii_dec c " ") as [->|]; [discriminate Hc | discriminate H].
  - destruct (ascii_dec c d); [now apply (IH a b) | discriminate].
Qed.

Lemma str_includes_sep k a b :
  spaceless k = true ->
  str_includes (a ++ String " " b) k = true ->
  str_includes a k = true \/ str_includes b k = true.
Proof.
  intros Hk. induction a as [|d a IH]; cbn [append str_includes]; intros H.
  - apply orb_true_iff in H. destruct H as [H | H]; [|now right].
    left. change (String " " b) with ("" ++ String " " b) in H.
    apply (prefix_sep _ _ _ Hk) in H. cbn [str_includes]. now rewrite H.
  - apply orb_true_iff in H. destruct H as [H | H].
    + left. change (String d (a ++ String " " b))
        with (String d a ++ String " " b) in H.
      apply (prefix_sep _ _ _ Hk) in H. now rewrite H.
    + destruct (IH H) as [Ha | Hb]; [left | now right].
      rewrite Ha. apply orb_true_r.
Qed.

Lemma is_str_eq column s : is_str column s = true -> column = Some s.
Proof.
  unfold is_str. destruct column as [x|]; [|discriminate].
  intros H. apply String.eqb_eq in H. now subst.
Qed.

(** X29. A ticket escalates on the four signals and on nothing else:
    [shouldEscalate] is true if and only if the priority is 'urgent', or
    the sentiment is 'very_negative', or there is a sentiment score and it
    is below -0.5, or the subject or the body contains, in any case of the
    letters, one of the escalation keywords. A ticket without a sentiment
    score does not escalate on the score, and a keyword is never found
    across the boundary of subject and body. *)
Theorem escalates_only_on_signals ticket :
  shouldEscalate ticket = true <-> escalation_signal ticket.
Proof.
  split; [|apply shouldEscalate_signal].
  unfold shouldEscalate, escalation_signal.
  destruct (is_str (Ticket.priority ticket) "urgent") eqn:P.
  { intros _. left. now apply is_str_eq. }
  destruct (is_str (Ticket.sentiment ticket) "very_negative") eqn:S.
  { intros _. right. left. now apply is_str_eq. }
  destruct (column_lt (Ticket.sentiment_score ticket) (- (1 # 2))) eqn:C.
  { intros _. right. right. left. unfold column_lt in C.
    destruct (Ticket.sentiment_score ticket) as [score|]; [|discriminate].
    exists score. split; [reflexivity|].
    apply negb_true_iff in C. now apply ClassifierFacts.Qle_bool_false. }
  intros H. right. right. right. apply existsb_exists in H.
  destruct H as (keyword & Hin & H). exists keyword. split; [exact Hin|].
  rewrite !toLowerCase_app in H. cbn [toLowerCase append] in H.
  change (String (lower_char " ") (toLowerCase (Ticket.body ticket)))
    with (String " " (toLowerCase (Ticket.body ticket))) in H.
  apply str_includes_sep in H; [exact H|].
  repeat (destruct Hin as [<- | Hin]; [reflexivity|]). destruct Hin.
Qed.

(** **** The rule that wins *)

(** X24. Of the rules whose conditions hold of the ticket, one of highest
    priority (a missing priority counting as 0) is the one applied: the
    actions [applyRoutingRules] returns are those of a rule of the list
    that matches, and no matching rule of the list has a higher priority.
    It returns null exactly when the conditions of every rule evaluate to
    false. *)
Theorem highest_priority_match_wins ticket rules :
  (forall m,
      applyRoutingRules ticket rules = Ok (Some m) ->
      exists rule,
        In rule rules
        /\ m = rule_actions rule
        /\ matchesRule ticket (Rule.conditions rule) = Ok true
        /\ forall other,
            In other rules ->
            matchesRule ticket (Rule.conditions other) = Ok true ->
            (effective_priority other <= effective_priority rule)%Z)
  /\ (applyRoutingRules ticket rules = Ok None
      <-> Forall (fun r => matchesRule ticket (Rule.conditions r) = Ok false)
                 rules).
Proof.
  rewrite applyRoutingRules_sorted. split.
  - intros m H.
    destruct (first_match_some _ _ H)
      as (before & rule & after & Hs & Hb & Hr & Hm).
    pose proof (@sort_sorted _ by_priority_desc by_priority_total
                  by_priority_trans rules) as S.
    rewrite Hs in S.
    assert (Hin : forall r, In r rules <-> In r (before ++ rule :: after)%list)
      by (intros r; rewrite <- Hs; symmetry; apply in_sort).
    exists rule. split; [apply Hin, in_elt|]. repeat split; try assumption.
    intros other Ho Hm'. apply Hin, in_app_or in Ho.
    destruct Ho as [Ho | [<- | Ho]].
    + rewrite Forall_forall in Hb. rewrite (Hb other Ho) in Hm'. discriminate.
    + lia.
    + pose proof (sorted_after _ _ _ S other Ho) as P.
      rewrite precedes_by_priority in P. now apply Z.leb_le.
  - rewrite first_match_none, !Forall_forall. split; intros H r Hr; apply H.
    + now apply in_sort.
    + now apply in_sort in Hr.
Qed.

End RouterMore.

(** *** More on the queue worker *)

Module WorkerMore.
Import Worker Spec.

Lemma classify_total cfg now service :
  exists c, Classifier.classify cfg now service = Ok c.
Proof.
  unfold Classifier.classify. destruct service as [e|result]; cbn [try_catch].
  - now eexists.
  - destruct (Classifier.normalize _ _ result); cbn [try_catch]; now eexists.
Qed.

Lemma job_stored_when_writes_complete_aux env j st :
  insert_classification env = None ->
  update_ticket env = None ->
  (ENABLE_AUTO_ROUTING env = true -> push_routing env = None) ->
  exists c st',
    Classifier.classify (cfg env) (now env) (service env) = Ok c
    /\ processJob env j st = (Ok tt, st')
    /\ classifications st' = (ticketId j, c) :: classifications st
    /\ tickets st' = (ticketId j, c) :: tickets st
    /\ routing_queue st'
       = (if ENABLE_AUTO_ROUTING env
          then (ticketId j, tenantId j) :: routing_queue st
          else routing_queue st)
    /\ retry_queue st' = retry_queue st
    /\ processingCount st' = processingCount st
    /\ log st'
       = Info "Classification completed" (ticketId j)
         :: Info "Processing classification job" (ticketId j) :: log st.
Proof.
  intros Hi Hu Hr.
  destruct (classify_total (cfg env) (now env) (service env)) as [c Hc].
  exists c. unfold processJob, process_body, try_catch_finally, bindM,
    modify, await, lift.
  rewrite Hc, Hi, Hu.
  destruct (ENABLE_AUTO_ROUTING env).
  - rewrite (Hr eq_refl). cbn. eexists. split; [reflexivity|].
    split; [reflexivity|]. cbn. repeat split. lia.
  - cbn. eexists. split; [reflexivity|].
    split; [reflexivity|]. cbn. repeat split. lia.
Qed.

(** X16. When the two writes to the store complete, and the push of the
    routing job completes if auto-routing is enabled, [processJob] returns
    normally, whatever the classification service did: the classification
    [classify] returned is stored as one row of [classifications] and
    written to the ticket, the routing job (ticket id, tenant id) is pushed
    exactly when auto-routing is enabled, the retry queue is untouched, the
    counter of jobs in progress is restored, and the two log lines are
    written. *)
Theorem job_stored_when_writes_complete env j st :
  insert_classification env = None ->
  update_ticket env = None ->
  (ENABLE_AUTO_ROUTING env = true -> push_routing env = None) ->
  exists c st',
    Classifier.classify (cfg env) (now env) (service env) = Ok c
    /\ processJob env j st = (Ok tt, st')
    /\ classifications st' = (ticketId j, c) :: classifications st
    /\ tickets st' = (ticketId j, c) :: tickets st
    /\ routing_queue st'
       = (if ENABLE_AUTO_ROUTING env
          then (ticketId j, tenantId j) :: routing_queue st
          else routing_queue st)
    /\ retry_queue st' = retry_queue st
    /\ processingCount st' = processingCount st
    /\ log st'
       = Info "Classification completed" (ticketId j)
         :: Info "Processing classification job" (ticketId j) :: log st.
Proof. apply job_stored_when_writes_complete_aux. Qed.

Lemma job_stored_when_writes_complete_witness :
  exists st',
    processJob Sample.store_timeout Sample.job Sample.idle = (Ok tt, st')
    \/ (processJob Sample.service_down Sample.job Sample.idle = (Ok tt, st')
        /\ routing_queue st' = [("ticket-1", "tenant-1")]).
Proof.
  destruct (@job_stored_when_writes_complete Sample.service_down Sample.job
              Sample.idle eq_refl eq_refl (fun _ => eq_refl))
    as (c & st' & _ & Hp & _ & _ & Hq & _).
  exists st'. right. split; [exact Hp | exact Hq].
Defined.

(** X17. A failure of the classification service never makes the job
    fail and is never retried, whatever the error (a rate limit or a
    connection reset included): when the writes complete, the job returns
    normally, the fallback classification (general, medium, neutral, all
    confidences 0) is what is stored and written to the ticket, and the
    retry queue is untouched. *)
Theorem service_failure_is_not_retried env j st e :
  service env = Classifier.Fails e ->
  insert_classification env = None ->
  update_ticket env = None ->
  (ENABLE_AUTO_ROUTING env = true -> push_routing env = None) ->
  let stored :=
    (ticketId j,
     Classifier.fallback (cfg env) (now env 1%nat - now env 0%nat)) in
  exists st',
    processJob env j st = (Ok tt, st')
    /\ classifications st' = stored :: classifications st
    /\ tickets st' = stored :: tickets st
    /\ retry_queue st' = retry_queue st
    /\ Forall (fun entry => match entry with
                            | Failed _ _ _ => False
                            | Info _ _ => True
                            end)
              (firstn 2 (log st')).
Proof.
  intros Hs Hi Hu Hr stored.
  destruct (@job_stored_when_writes_complete_aux env j st Hi Hu Hr)
    as (c & st' & Hc & Hp & H1 & H2 & _ & H3 & _ & Hl).
  unfold Classifier.classify in Hc. rewrite Hs in Hc. cbn [try_catch] in Hc.
  injection Hc as <-. exists st'. rewrite Hl. cbn [firstn].
  repeat split; try assumption. now repeat constructor.
Qed.

Lemma service_failure_is_not_retried_witness :
  isRetryableError Sample.rate_limited = true
  /\ exists st',
      processJob Sample.service_down Sample.job Sample.idle = (Ok tt, st')
      /\ retry_queue st' = [].
Proof.
  split; [reflexivity|].
  destruct (@service_failure_is_not_retried Sample.service_down Sample.job
              Sample.idle Sample.rate_limited eq_refl eq_refl eq_refl
              (fun _ => eq_refl)) as (st' & Hp & _ & _ & Hq & _).
  exists st'. split; [exact Hp | exact Hq].
Defined.

(** X18. The writes of [processJob], by what becomes of the two awaited
    store calls. The counter of jobs in progress is restored in every
    case. When the insert of the classification throws, nothing is
    written: no classification row, no ticket update, no routing job.
    When the insert is carried out and the update of the ticket throws,
    the classification row stays in place (nothing is rolled back), the
    ticket is not updated and no routing job is pushed. When both writes
    are carried out, the ticket is written with the classification that
    was just stored, and the routing job is pushed at most once, only
    with auto-routing enabled and only when its push completes. *)
Theorem writes_in_order env j st :
  let st' := snd (processJob env j st) in
  let id := ticketId j in
  processingCount st' = processingCount st
  /\ (forall e, insert_classification env = Some e ->
      classifications st' = classifications st
      /\ tickets st' = tickets st
      /\ routing_queue st' = routing_queue st)
  /\ (forall e, insert_classification env = None ->
      update_ticket env = Some e ->
      (exists c, classifications st' = (id, c) :: classifications st)
      /\ tickets st' = tickets st
      /\ routing_queue st' = routing_queue st)
  /\ (insert_classification env = None -> update_ticket env = None ->
      (exists c, classifications st' = (id, c) :: classifications st
                 /\ tickets st' = (id, c) :: tickets st)
      /\ (routing_queue st' = routing_queue st
          \/ ENABLE_AUTO_ROUTING env = true
             /\ push_routing env = None
             /\ routing_queue st' = (id, tenantId j) :: routing_queue st)).
Proof.
  destruct (classify_total (cfg env) (now env) (service env)) as [c Hc].
  unfold processJob, process_body, process_failure, try_catch_finally,
    bindM, modify, await, lift.
  rewrite Hc.
  destruct (insert_classification env) as [e1|],
    (update_ticket env) as [e2|],
    (ENABLE_AUTO_ROUTING env), (push_routing env) as [e3|],
    (push_retry env) as [e4|];
    cbn -[isRetryableError];
    repeat match goal with
           | |- context [isRetryableError ?e] =>
               destruct (isRetryableError e); cbn -[isRetryableError]
           end;
    (split; [lia|]);
    (split; [intros e; try discriminate; intros _; auto|]);
    (split; [intros e; try discriminate; intros _; try discriminate;
             intros _; eauto|]);
    (try discriminate; intros _; try discriminate; intros _);
    (split; [eauto|]); auto.
Qed.

End WorkerMore.

(** *** The loop of the queue worker *)

Module LoopFacts.
Import Worker Loop.

Ltac run_job env c Hc :=
  unfold processJob, process_body, process_failure, try_catch_finally,
    bindM, modify, await, lift;
  rewrite Hc;
  destruct (insert_classification env), (update_ticket env),
    (ENABLE_AUTO_ROUTING env), (push_routing env), (push_retry env);
    cbn -[isRetryableError];
    repeat match goal with
           | |- context [isRetryableError ?e] =>
               destruct (isRetryableError e); cbn -[isRetryableError]
           end.

(** [processJob] restores the counter. *)
Lemma processJob_counter env j st :
  processingCount (snd (processJob env j st)) = processingCount st.
Proof.
  destruct (WorkerMore.classify_total (cfg env) (now env) (service env))
    as [c Hc].
  run_job env c Hc; lia.
Qed.

(** [processJob] logs that it takes the job, and keeps what was logged. *)
Lemma processJob_log env j st :
  exists new,
    log (snd (processJob env j st))
    = (new ++ Info "Processing classification job" (ticketId j) :: log st)%list.
Proof.
  destruct (WorkerMore.classify_total (cfg env) (now env) (service env))
    as [c Hc].
  run_job env c Hc;
    first [ now exists [] | now eexists [_] | now eexists [_; _] ].
Qed.

Lemma turn_counter it st :
  processingCount (snd (turn it st)) = processingCount st.
Proof.
  unfold turn. destruct (pop it) as [e| |[j|e]]; try reflexivity.
  apply processJob_counter.
Qed.

Lemma turn_log it st :
  exists new, log (snd (turn it st)) = (new ++ log st)%list.
Proof.
  unfold turn. destruct (pop it) as [e| |[j|e]]; try now exists [].
  destruct (processJob_log (env it) j st) as [new Hn].
  exists (new ++ [Info "Processing classification job" (ticketId j)])%list.
  rewrite Hn. now rewrite <- app_assoc.
Qed.

Lemma iterate_accounts it w :
  processingCount (jobs (iterate it w)) = processingCount (jobs w)
  /\ exists new,
      events (iterate it w) = (new ++ events w)%list
      /\ slept (iterate it w) = (slept w + 1000 * errors new)%Z.
Proof.
  unfold iterate. pose proof (turn_counter it (jobs w)) as Hc.
  destruct (turn it (jobs w)) as [[u|e] st]; cbn [snd] in Hc;
    destruct (stop_called it); cbn; (split; [exact Hc|]).
  - exists [Stopping]. split; [reflexivity | cbn; lia].
  - exists []. split; [reflexivity | cbn; lia].
  - exists [Stopping; LoopError e]. split; [reflexivity | cbn; lia].
  - exists [LoopError e]. split; [reflexivity | cbn; lia].
Qed.

Lemma errors_app l1 l2 : errors (l1 ++ l2) = (errors l1 + errors l2)%Z.
Proof. unfold errors. rewrite filter_app, length_app. lia. Qed.

(** X19. Whatever the pops and the jobs do, the loop leaves the counter of
    jobs in progress as it found it (0 for a worker at rest), so
    [getStats] reports no job in progress between two turns; and it
    sleeps 1000 ms for each error it logs, neither more nor less. *)
Theorem loop_accounts schedule : forall w,
  let w' := processLoop schedule w in
  snd (getStats w') = snd (getStats w)
  /\ exists new,
      events w' = (new ++ events w)%list
      /\ slept w' = (slept w + 1000 * errors new)%Z.
Proof.
  unfold getStats. cbn [snd].
  induction schedule as [|it rest IH]; intros w; cbn [processLoop].
  - split; [reflexivity|]. exists []. split; [reflexivity | cbn; lia].
  - destruct (running w).
    + destruct (IH (iterate it w)) as (Hc & new & He & Hs).
      destruct (iterate_accounts it w) as (Hc1 & new1 & He1 & Hs1).
      split; [congruence|]. exists (new ++ new1)%list. split.
      * rewrite He, He1. now rewrite app_assoc.
      * rewrite Hs, Hs1, errors_app. lia.
    + split; [reflexivity|]. exists []. split; [reflexivity | cbn; lia].
Qed.

Lemma stopped_loop schedule w :
  running w = false -> processLoop schedule w = w.
Proof. intros H. destruct schedule; [reflexivity|]. cbn. now rewrite H. Qed.

Lemma iterate_stops it w :
  stop_called it = true -> running (iterate it w) = false.
Proof.
  intros H. unfold iterate. rewrite H.
  now destruct (turn it (jobs w)) as [[u|e] st].
Qed.

Lemma iterate_runs it w :
  stop_called it = false -> running (iterate it w) = running w.
Proof.
  intros H. unfold iterate. rewrite H.
  now destruct (turn it (jobs w)) as [[u|e] st].
Qed.

(** X20. [stop()] takes effect at the next test of the loop: the turn
    during which it is called is completed, the job it popped included,
    and no later turn is run: nothing more is popped from the queue, and
    the worker is left not running. *)
Theorem stop_ends_the_loop before it after : forall w,
  stop_called it = true ->
  processLoop (before ++ it :: after) w = processLoop (before ++ [it]) w
  /\ running (processLoop (before ++ it :: after) w) = false.
Proof.
  intros w Hs. revert w.
  induction before as [|b before IH]; intros w; cbn [app processLoop].
  - destruct (running w) eqn:R; [|now split].
    rewrite (@stopped_loop after (iterate it w) (@iterate_stops it w Hs)).
    split; [reflexivity | now apply iterate_stops].
  - destruct (running w) eqn:R; [apply IH | now split].
Qed.

Lemma stop_ends_the_loop_witness :
  processLoop [LoopSample.refused; LoopSample.last_job; LoopSample.takes_job]
              LoopSample.started
  = processLoop [LoopSample.refused; LoopSample.last_job] LoopSample.started
  /\ List.length
       (Worker.tickets
          (jobs (processLoop [LoopSample.refused; LoopSample.last_job;
                              LoopSample.takes_job] LoopSample.started)))
     = 1%nat.
Proof.
  destruct (@stop_ends_the_loop [LoopSample.refused] LoopSample.last_job
              [LoopSample.takes_job] LoopSample.started eq_refl) as [H _].
  split; [exact H|]. cbn [app] in H. rewrite H. vm_compute. reflexivity.
Defined.

Lemma iterate_log it w :
  exists new, log (jobs (iterate it w)) = (new ++ log (jobs w))%list.
Proof.
  unfold iterate. destruct (turn_log it (jobs w)) as [new Hn].
  exists new. destruct (turn it (jobs w)) as [[u|e] st]; cbn [snd] in Hn;
    now destruct (stop_called it).
Qed.

Lemma loop_log schedule : forall w,
  exists new,
    log (jobs (processLoop schedule w)) = (new ++ log (jobs w))%list.
Proof.
  induction schedule as [|it rest IH]; intros w; cbn [processLoop].
  - now exists [].
  - destruct (running w); [|now exists []].
    destruct (IH (iterate it w)) as [new Hn].
    destruct (iterate_log it w) as [new1 Hn1].
    exists (new ++ new1)%list. rewrite Hn, Hn1. now rewrite app_assoc.
Qed.

Lemma iterate_takes it w j :
  pops j it ->
  In (Info "Processing classification job" (ticketId j))
     (log (jobs (iterate it w))).
Proof.
  unfold pops, iterate, turn. intros ->.
  destruct (processJob_log (env it) j (jobs w)) as [new Hn].
  destruct (processJob (env it) j (jobs w)) as [[u|e] st]; cbn [snd] in Hn;
    destruct (stop_called it); cbn; rewrite Hn; apply in_elt.
Qed.

(** X21. An error does not end the loop: as long as [stop()] is not
    called, the worker keeps running after a rejected pop, an element that
    does not parse, or a job whose failure reaches the loop, and every job
    popped in a later turn is still taken up by [processJob]. *)
Theorem loop_survives_errors schedule : forall w,
  running w = true ->
  Forall (fun it => stop_called it = false) schedule ->
  running (processLoop schedule w) = true
  /\ forall it j,
      In it schedule -> pops j it ->
      In (Info "Processing classification job" (ticketId j))
         (log (jobs (processLoop schedule w))).
Proof.
  induction schedule as [|it rest IH]; intros w R F; cbn [processLoop].
  - split; [exact R | contradiction].
  - inversion F as [|? ? Hs F']; subst. rewrite R.
    assert (R' : running (iterate it w) = true)
      by now rewrite (@iterate_runs it w Hs).
    destruct (IH (iterate it w) R' F') as [Hr Hj].
    split; [exact Hr|]. intros it' j [<- | Hin] Hp.
    + destruct (loop_log rest (iterate it w)) as [new ->].
      apply in_or_app. right. now apply iterate_takes.
    + now apply (Hj it').
Qed.

Lemma loop_survives_errors_witness :
  In (Info "Processing classification job" "ticket-1")
     (log (jobs (processLoop
                   [LoopSample.refused; LoopSample.garbled;
                    LoopSample.takes_job] LoopSample.started))).
Proof.
  destruct (@loop_survives_errors
              [LoopSample.refused; LoopSample.garbled; LoopSample.takes_job]
              LoopSample.started eq_refl) as [_ H].
  - repeat constructor.
  - apply (H LoopSample.takes_job Sample.job); [|reflexivity].
    right. right. now left.
Defined.

End LoopFacts.

(** *** Batches and languages *)

Module CallsFacts.
Import Classifier Calls.

Lemma classify_each_spec cfg tickets : forall results,
  exists new,
    classify_each cfg tickets results = Ok (results ++ new)%list
    /\ map ticketId new = map id tickets
    /\ Forall2 (fun ticket e =>
                  classify cfg (clock ticket) (outcome ticket)
                  = Ok (result e)) tickets new.
Proof.
  induction tickets as [|t tickets IH]; intros results; cbn [classify_each].
  - exists []. rewrite app_nil_r. repeat split. constructor.
  - destruct (WorkerMore.classify_total cfg (clock t) (outcome t)) as [c Hc].
    rewrite Hc. cbn [bind].
    destruct (IH (results ++ [{| ticketId := id t; result := c |}])%list)
      as (new & Hn & Hi & Hf).
    exists ({| ticketId := id t; result := c |} :: new). split.
    + rewrite Hn. now rewrite <- app_assoc.
    + split; [cbn; now rewrite Hi|]. now constructor.
Qed.

(** X22. [classifyBatch] never raises and returns one entry per ticket, in
    the order of the tickets, each with the id of its ticket and with the
    result [classify] gives for that ticket alone: a ticket whose request
    fails gets the fallback classification, and the entries of the other
    tickets are what they would be without it. *)
Theorem batch_in_order cfg tickets :
  exists results,
    classifyBatch cfg tickets = Ok results
    /\ List.length results = List.length tickets
    /\ map ticketId results = map id tickets
    /\ Forall2 (fun ticket e =>
                  classify cfg (clock ticket) (outcome ticket)
                  = Ok (result e)) tickets results.
Proof.
  destruct (classify_each_spec cfg tickets []) as (new & Hn & Hi & Hf).
  exists new. split; [exact Hn|]. split; [|now split].
  rewrite <- (length_map ticketId), Hi. apply length_map.
Qed.

(** **** The language code *)

Lemma lower_char_idem c : lower_char (lower_char c) = lower_char c.
Proof. destruct c as [[] [] [] [] [] [] [] []]; reflexivity. Qed.

Lemma is_ws_lower c : is_ws (lower_char c) = is_ws c.
Proof. destruct c as [[] [] [] [] [] [] [] []]; reflexivity. Qed.

Lemma toLowerCase_idem s : toLowerCase (toLowerCase s) = toLowerCase s.
Proof.
  induction s as [|c s IH]; cbn [toLowerCase]; [reflexivity|].
  now rewrite lower_char_idem, IH.
Qed.

Lemma toLowerCase_list s :
  list_ascii_of_string (toLowerCase s)
  = map lower_char (list_ascii_of_string s).
Proof.
  induction s as [|c s IH]; cbn; [reflexivity | now rewrite IH].
Qed.

Lemma toLowerCase_of_list l :
  toLowerCase (string_of_list_ascii l)
  = string_of_list_ascii (map lower_char l).
Proof.
  induction l as [|c l IH]; cbn; [reflexivity | now rewrite IH].
Qed.

Lemma trim_start_lower l :
  trim_start (map lower_char l) = map lower_char (trim_start l).
Proof.
  induction l as [|c l IH]; cbn [map trim_start]; [reflexivity|].
  rewrite is_ws_lower. destruct (is_ws c); [exact IH | reflexivity].
Qed.

Lemma trim_lower l : trim (map lower_char l) = map lower_char (trim l).
Proof.
  unfold trim.
  now rewrite trim_start_lower, <- map_rev, trim_start_lower, map_rev.
Qed.

Lemma trim_start_clean l : clean (trim_start l).
Proof.
  induction l as [|c l IH]; cbn [trim_start]; [exact I|].
  destruct (is_ws c) eqn:E; [exact IH | exact E].
Qed.

Lemma clean_trim_start l : clean l -> trim_start l = l.
Proof. destruct l as [|c l]; cbn; [reflexivity | now intros ->]. Qed.

Lemma trim_start_suffix l : exists w, l = (w ++ trim_start l)%list.
Proof.
  induction l as [|c l [w IH]]; cbn [trim_start]; [now exists []|].
  destruct (is_ws c); [|now exists []].
  exists (c :: w). cbn. now rewrite <- IH.
Qed.

Lemma trim_clean l : clean l -> clean (rev (trim_start (rev l))).
Proof.
  intros H. destruct (trim_start_suffix (rev l)) as [w Hw].
  apply (f_equal (@rev ascii)) in Hw. rewrite rev_involutive, rev_app_distr in Hw.
  destruct (rev (trim_start (rev l))) as [|c r]; [exact I|].
  subst l. exact H.
Qed.

Lemma trim_idem l : trim (trim l) = trim l.
Proof.
  unfold trim.
  pose proof (@trim_clean _ (trim_start_clean l)) as H1.
  rewrite (@clean_trim_start _ H1), rev_involutive.
  now rewrite (@clean_trim_start _ (trim_start_clean (rev (trim_start l)))).
Qed.

Lemma trim_string_lower s :
  trim_string (toLowerCase (trim_string s)) = toLowerCase (trim_string s).
Proof.
  unfold trim_string.
  rewrite toLowerCase_list, list_ascii_of_string_of_list_ascii.
  rewrite trim_lower, trim_idem. symmetry. apply toLowerCase_of_list.
Qed.

Lemma substring_idem n : forall s,
  substring 0 n (substring 0 n s) = substring 0 n s.
Proof.
  induction n as [|n IH]; intros [|c s]; cbn; try reflexivity.
  now rewrite IH.
Qed.

(** X23. [detectLanguage] never raises. The code it returns is in lower
    case and has no white space around it: it is the trimmed, lower-cased
    content of the answer, and 'en' when the request fails or the answer
    has no content. Only the first 500 characters of the text are sent:
    two texts that agree on them get the same code. *)
Theorem language_code_normalised service text :
  exists code,
    detectLanguage service text = Ok code
    /\ toLowerCase code = code
    /\ trim_string code = code
    /\ (forall content,
           service (substring 0 500 text) = Content (Some content) ->
           code = toLowerCase (trim_string content))
    /\ ((forall content,
            service (substring 0 500 text) <> Content (Some content)) ->
        code = "en")
    /\ detectLanguage service (substring 0 500 text) = Ok code
    /\ (forall text',
           substring 0 500 text' = substring 0 500 text ->
           detectLanguage service text' = Ok code).
Proof.
  unfold detectLanguage. rewrite substring_idem.
  destruct (service (substring 0 500 text)) as [e|[content|]] eqn:S;
    cbn [try_catch]; eexists; (split; [reflexivity|]).
  - repeat split; try reflexivity; try discriminate.
    intros text' ->. now rewrite S.
  - split; [apply toLowerCase_idem|]. split; [apply trim_string_lower|].
    split; [now intros c [= <-]|]. split; [intros H; now destruct (H content)|].
    split; [reflexivity|]. intros text' ->. now rewrite S.
  - repeat split; try reflexivity; try discriminate.
    intros text' ->. now rewrite S.
Qed.

End CallsFacts.

(** *** The assign endpoint *)

Module EndpointFacts.
Import Router Spec Vocabulary Endpoint.

Lemma load_without_count a :
  Agent.current_ticket_count a = None -> load a = 0.
Proof.
  unfold load, load_ratio. intros ->. cbn [or_default].
  change (Double.of_Z 0) with (S754_zero false).
  now destruct (Double.of_Z (or_default 10 (Agent.max_tickets a)))
    as [[|]|[|]| |[|] m e].
Qed.

Lemma fetched_agent a users :
  In a (fetch_agents users) ->
  has_memberships a = true
  /\ load a = 0
  /\ Agent.is_active a = true
  /\ Agent.role a = Some "agent".
Proof.
  unfold fetch_agents. rewrite in_map_iff.
  intros (u & <- & Hu). apply filter_In in Hu. destruct Hu as [_ Hu].
  unfold available in Hu. apply andb_true_iff in Hu. destruct Hu as [Ha Hr].
  split; [reflexivity|]. split; [now apply load_without_count|].
  split; [exact Ha|].
  unfold is_str in Hr. cbn [selected_agent Agent.role].
  destruct (Agent.role u) as [r|]; [|discriminate].
  apply String.eqb_eq in Hr. now subst.
Qed.

Lemma fetched_memberships users :
  fetch_agents users <> [] ->
  existsb has_memberships (fetch_agents users) = true.
Proof.
  intros H. destruct (fetch_agents users) as [|a agents] eqn:F; [congruence|].
  cbn [existsb].
  destruct (fetched_agent a users) as [-> _]; [rewrite F; now left|].
  reflexivity.
Qed.

(** X25. The agents the assign endpoint fetches (active users of role
    'agent', each with the array of its memberships, no ticket count) all
    come with memberships and have load ratio 0. So, as soon as one agent
    is fetched, the search for a senior agent throws (the callback of line
    270), whatever the team, and with it the assignment of every ticket
    that escalates: the endpoint writes nothing for such a ticket. And the
    least busy agent is the first agent fetched. *)
Theorem endpoint_escalation_throws users :
  let agents := fetch_agents users in
  (forall a, In a agents ->
      has_memberships a = true /\ load a = 0 /\ Agent.is_active a = true)
  /\ (agents <> [] ->
      forall teamId,
        findSeniorAgent agents teamId
        = Throw (ReferenceError "tm is not defined"))
  /\ (agents <> [] ->
      forall ticket row teams rules,
        shouldEscalate ticket = true ->
        exists e, assign ticket row users teams rules = Throw e)
  /\ findLeastBusyAgent agents = hd_error agents.
Proof.
  cbv zeta. split; [|split; [|split]].
  - intros a Ha. destruct (fetched_agent a users Ha) as (H1 & H2 & H3 & _).
    now repeat split.
  - intros H teamId.
    now rewrite RouterFacts.senior_agent_spec, (@fetched_memberships users H).
  - intros H ticket row teams rules E. unfold assign, route.
    destruct (route_steps_1_to_3 _ _ _ _) as [r3|e]; cbn [bind];
      [|now eexists].
    unfold route_steps_4_to_6.
    rewrite (@RouterFacts.escalation_throws ticket (fetch_agents users) r3 E
               (@fetched_memberships users H)).
    now eexists.
  - destruct (fetch_agents users) as [|a0 agents] eqn:F; [reflexivity|].
    destruct (@RouterFacts.least_busy_nonempty (a0 :: agents)) as [a Ha];
      [discriminate|].
    rewrite Ha. pose proof (RouterFacts.least_busy_ties _ Ha) as Hf.
    cbn [find] in Hf.
    assert (Qeq_bool (load a0) (load a) = true) as E.
    { apply Qeq_bool_iff.
      destruct (fetched_agent a0 users) as (_ & -> & _); [rewrite F; now left|].
      destruct (RouterFacts.least_busy_spec _ Ha) as [Hin _].
      destruct (fetched_agent a users) as (_ & -> & _); [now rewrite F|].
      reflexivity. }
    rewrite E in Hf. cbn [hd_error]. congruence.
Qed.

(** **** Tags *)

Lemma set_add_in seen x y :
  In y (set_add seen x) <-> In y seen \/ y = x.
Proof.
  unfold set_add. destruct (arr_includes seen x) eqn:E.
  - apply ClassifierFacts.arr_includes_In in E. split; [now left|].
    intros [H | ->]; assumption.
  - rewrite in_app_iff. cbn. intuition congruence.
Qed.

Lemma arr_includes_false l x : arr_includes l x = false -> ~ In x l.
Proof.
  unfold arr_includes. intros E Hin.
  assert (existsb (String.eqb x) l = true)
    by (apply existsb_exists; exists x; split;
        [exact Hin | apply String.eqb_refl]).
  congruence.
Qed.

Lemma set_add_nodup seen x : NoDup seen -> NoDup (set_add seen x).
Proof.
  intros H. unfold set_add. destruct (arr_includes seen x) eqn:E;
    [exact H|].
  apply NoDup_app; [exact H | repeat constructor; now intros [] |].
  intros y Hy [<- | []]. now apply (arr_includes_false _ _ E).
Qed.

Lemma fold_set_add l : forall seen,
  (NoDup seen -> NoDup (fold_left set_add l seen))
  /\ (forall y, In y (fold_left set_add l seen) <-> In y seen \/ In y l)
  /\ exists extra, fold_left set_add l seen = (seen ++ extra)%list.
Proof.
  induction l as [|x l IH]; intros seen; cbn [fold_left].
  - split; [auto|]. split; [cbn; tauto|]. exists []. now rewrite app_nil_r.
  - destruct (IH (set_add seen x)) as (Hn & Hi & extra & He).
    split; [intros H; now apply Hn, set_add_nodup|]. split.
    + intros y. rewrite Hi, set_add_in. cbn. intuition congruence.
    + rewrite He. unfold set_add. destruct (arr_includes seen x).
      * now exists extra.
      * exists (x :: extra). now rewrite <- app_assoc.
Qed.

Lemma fold_set_add_fresh l : forall seen,
  NoDup (seen ++ l) -> fold_left set_add l seen = (seen ++ l)%list.
Proof.
  induction l as [|x l IH]; intros seen H; cbn [fold_left].
  - now rewrite app_nil_r.
  - assert (arr_includes seen x = false) as E.
    { apply not_true_is_false. intros E.
      apply ClassifierFacts.arr_includes_In in E.
      apply NoDup_remove_2 in H. apply H, in_or_app. now left. }
    assert (set_add seen x = (seen ++ [x])%list) as ->
      by (unfold set_add; now rewrite E).
    change (x :: l) with ([x] ++ l)%list in H. rewrite app_assoc in H.
    rewrite (IH _ H). now rewrite <- app_assoc.
Qed.

Lemma fold_set_add_known l : forall seen,
  (forall x, In x l -> In x seen) -> fold_left set_add l seen = seen.
Proof.
  induction l as [|x l IH]; intros seen H; cbn [fold_left]; [reflexivity|].
  assert (arr_includes seen x = true) as E.
  { unfold arr_includes. apply existsb_exists. exists x.
    split; [apply H; now left | apply String.eqb_refl]. }
  assert (set_add seen x = seen) as -> by (unfold set_add; now rewrite E).
  apply IH. intros y Hy. apply H. now right.
Qed.

(** X26. The tags the assign endpoint writes, when the decision has tags:
    they have no duplicates, they are exactly the tags of the ticket and
    the tags of the decision, the tags of a ticket without duplicates keep
    their places at the front, and writing the same tags of the decision
    again changes nothing. When the decision has no tags the tags of the
    ticket are not written. *)
Theorem tags_are_merged current addTags :
  addTags <> [] ->
  let currentTags := match current with Some t => t | None => [] end in
  exists tags,
    merged_tags current addTags = Some tags
    /\ NoDup tags
    /\ (forall x, In x tags <-> In x currentTags \/ In x addTags)
    /\ (NoDup currentTags -> exists extra, tags = (currentTags ++ extra)%list)
    /\ merged_tags (Some tags) addTags = Some tags
    /\ merged_tags current [] = None.
Proof.
  intros Hne currentTags. unfold merged_tags.
  destruct addTags as [|t addTags]; [congruence|]. fold currentTags.
  set (add := t :: addTags) in *.
  eexists. split; [reflexivity|]. unfold set_of.
  destruct (fold_set_add (currentTags ++ add) []) as (Hn & Hi & _).
  assert (Hin : forall x, In x (fold_left set_add (currentTags ++ add)%list [])
                          <-> In x currentTags \/ In x add).
  { intros x. rewrite Hi, in_app_iff. cbn. tauto. }
  split; [apply Hn; constructor|]. split; [exact Hin|]. split; [|split].
  - intros Hc. rewrite fold_left_app.
    rewrite (@fold_set_add_fresh currentTags []) by exact Hc. cbn [app].
    now destruct (fold_set_add add currentTags) as (_ & _ & Hp).
  - f_equal. rewrite fold_left_app.
    rewrite (@fold_set_add_fresh _ []) by (apply Hn; constructor).
    cbn [app]. apply fold_set_add_known. intros x Hx. apply Hin. now right.
  - reflexivity.
Qed.

Lemma tags_are_merged_witness :
  merged_tags (Some ["vip"; "billing"]) ["billing"; "escalated"]
  = Some ["vip"; "billing"; "escalated"].
Proof.
  destruct (@tags_are_merged (Some ["vip"; "billing"])
              ["billing"; "escalated"]) as (tags & Ht & _);
    [discriminate|].
  rewrite Ht. vm_compute in Ht. now injection Ht as <-.
Defined.

(** **** The row written *)

Lemma merged_tags_some current addTags :
  addTags <> [] ->
  merged_tags current addTags
  = Some (set_of (match current with Some t => t | None => [] end
                  ++ addTags)).
Proof. destruct addTags; [congruence | reflexivity]. Qed.

Lemma assign_inv ticket row users teams rules row' :
  assign ticket row users teams rules = Ok row' ->
  exists d,
    route ticket (fetch_agents users) teams (fetch_rules rules) = Ok d
    /\ row' = apply_routing d row.
Proof.
  unfold assign.
  destruct (route ticket (fetch_agents users) teams (fetch_rules rules))
    as [d|e]; cbn [bind]; [|discriminate].
  intros [= <-]. now exists d.
Qed.

(** X27. Assigning a ticket that escalates. As soon as one agent is
    fetched the router throws and nothing is written. When no agent is
    fetched and the endpoint gets a decision, the ticket is written with
    priority 'urgent' and with tags that contain 'escalated', hold every
    tag the ticket had, and have no duplicates. *)
Theorem assign_escalating_ticket ticket row users teams rules :
  shouldEscalate ticket = true ->
  (fetch_agents users <> [] ->
   exists e, assign ticket row users teams rules = Throw e)
  /\ (forall row',
         assign ticket row users teams rules = Ok row' ->
         fetch_agents users = []
         /\ priority row' = Some "urgent"
         /\ exists written,
             tags row' = Some written
             /\ In "escalated" written
             /\ NoDup written
             /\ forall tag current,
                 tags row = Some current -> In tag current ->
                 In tag written).
Proof.
  intros E.
  assert (T : fetch_agents users <> [] ->
              exists e, assign ticket row users teams rules = Throw e).
  { intros H. unfold assign, route.
    destruct (route_steps_1_to_3 _ _ _ _) as [r3|e]; cbn [bind];
      [|now eexists].
    unfold route_steps_4_to_6.
    rewrite (@RouterFacts.escalation_throws ticket (fetch_agents users) r3 E
               (@fetched_memberships users H)).
    now eexists. }
  split; [exact T|]. intros row' H. split.
  { destruct (fetch_agents users) as [|a l] eqn:F; [reflexivity|].
    destruct T as [e He]; [discriminate|]. rewrite He in H. discriminate. }
  destruct (assign_inv _ _ _ _ _ H) as (d & Hd & ->).
  destruct (RouterFacts.route_inv _ _ _ _ Hd) as (r3 & r4 & _ & H4 & ->).
  unfold apply_routing.
  cbn [priority tags Routing.with_confidence Routing.setPriority
       Routing.addTags].
  destruct (RouterFacts.load_balance_keeps (fetch_agents users) r4)
    as (-> & -> & _).
  destruct (RouterFacts.handle_escalation_marks _ _ _ H4) as (-> & -> & _).
  rewrite E. split; [reflexivity|].
  rewrite merged_tags_some by (now destruct (Routing.addTags r3)).
  eexists. split; [reflexivity|]. unfold set_of.
  destruct (fold_set_add
              (match tags row with Some t0 => t0 | None => [] end
               ++ Routing.addTags r3 ++ ["escalated"]) [])
    as (Hn & Hi & _).
  split; [|split].
  - apply Hi. right. rewrite !in_app_iff. right. right. now left.
  - apply Hn. constructor.
  - intros tag current Hc Hin. apply Hi. right. rewrite Hc.
    apply in_or_app. now left.
Qed.

(** No agent is fetched: the only users are inactive or managers. *)
Lemma assign_escalating_ticket_witness :
  exists row',
    assign Sample.fraud_ticket
      {| assigned_to := None; assigned_team := None;
         priority := Some "medium"; tags := Some ["vip"] |}
      [Sample.inactive; Sample.manager] [Sample.T0]
      [Sample.billing_rule] = Ok row'
    /\ priority row' = Some "urgent"
    /\ tags row' = Some ["vip"; "escalated"].
Proof.
  eexists. split; [vm_compute; reflexivity|].
  split; [|reflexivity].
  destruct (@assign_escalating_ticket Sample.fraud_ticket
              {| assigned_to := None; assigned_team := None;
                 priority := Some "medium"; tags := Some ["vip"] |}
              [Sample.inactive; Sample.manager] [Sample.T0]
              [Sample.billing_rule] ltac:(vm_compute; reflexivity))
    as [_ H].
  now destruct (H _ ltac:(vm_compute; reflexivity)) as (_ & Hp & _).
Defined.



End EndpointFacts.
